(** * Timer / session lifecycle of the Intercom time tracker

    A shallow embedding of the server (the Express application: the
    [timers], [sessions] and [conversationHistory] maps, the handlers
    of [/test-initialize], [/api/timer/pause], [/api/timer/resume],
    [/webhooks/conversations] and [/api/analytics/:admin_id], and the
    helper [stopTimer]), followed by the properties of the timer
    lifecycle and of the analytics.

    Modelling choices.
    - JavaScript objects live in a heap of timer objects addressed by
      location; the maps hold locations, so that the aliasing between
      [timers] and [sessions] and the copy [{ ...timer }] made by
      [stopTimer] are visible.
    - A [Map] is the ECMAScript entry list: [delete] leaves an empty
      slot behind, [set] on a new key appends, and an iterator is an
      index into the list. This is what a [for ... of] loop observes
      when its body deletes entries.
    - [Date.now()] reads the [clock] field of the world; the clock moves
      between requests, a handler runs at one reading.
    - [crypto.randomUUID()] reads the next value of [uuid_source].
    - Numbers are integers [Z]; the one quotient of the program (the
      average of the analytics) is an exact rational, [NaN] included. *)

From Stdlib Require Import ZArith QArith String List Lia Permutation.
From stdpp Require Import base option list sets strings sorting.
Import ListNotations.

#[local] Set Warnings "-clear-no-such-hyp".

Local Open Scope Z_scope.
Local Open Scope string_scope.
Local Open Scope list_scope.

(** ** Data model *)

Inductive Status : Type := running | paused | stopped.

Definition Status_eqb (a b : Status) : bool :=
  match a, b with
  | running, running | paused, paused | stopped, stopped => true
  | _, _ => false
  end.

(** A timer object. [final_duration] and [end_time] are absent
    ([undefined]) until [stopTimer] assigns them. *)
Record Timer : Type := mkTimer {
  admin_id : string;
  conversation_id : string;
  session_id : string;
  start_time : Z;
  total_elapsed : Z;
  status : Status;
  last_update : Z;
  final_duration : option Z;
  end_time : option Z
}.

Definition set_total_elapsed (v : Z) (t : Timer) : Timer :=
  mkTimer (admin_id t) (conversation_id t) (session_id t) (start_time t)
          v (status t) (last_update t) (final_duration t) (end_time t).

Definition set_status (v : Status) (t : Timer) : Timer :=
  mkTimer (admin_id t) (conversation_id t) (session_id t) (start_time t)
          (total_elapsed t) v (last_update t) (final_duration t) (end_time t).

Definition set_last_update (v : Z) (t : Timer) : Timer :=
  mkTimer (admin_id t) (conversation_id t) (session_id t) (start_time t)
          (total_elapsed t) (status t) v (final_duration t) (end_time t).

Definition set_final_duration (v : Z) (t : Timer) : Timer :=
  mkTimer (admin_id t) (conversation_id t) (session_id t) (start_time t)
          (total_elapsed t) (status t) (last_update t) (Some v) (end_time t).

Definition set_end_time (v : Z) (t : Timer) : Timer :=
  mkTimer (admin_id t) (conversation_id t) (session_id t) (start_time t)
          (total_elapsed t) (status t) (last_update t) (final_duration t) (Some v).

(** Template literal [`${admin_id}_${conversation_id}`]. *)
Definition key (adminId conversationId : string) : string :=
  (adminId ++ "_" ++ conversationId)%string.

Definition timerKey (t : Timer) : string :=
  key (admin_id t) (conversation_id t).

(** ** ECMAScript [Map] *)

Abbreviation loc := nat (only parsing).
Abbreviation jsmap V := (list (option (string * V))).

Module JSMap.
Section Ops.
Context {V : Type}.

Fixpoint get (k : string) (m : jsmap V) : option V :=
  match m with
  | [] => None
  | Some (k', v) :: m' => if String.eqb k' k then Some v else get k m'
  | None :: m' => get k m'
  end.

Fixpoint set (k : string) (v : V) (m : jsmap V) : jsmap V :=
  match m with
  | [] => [Some (k, v)]
  | Some (k', v') :: m' =>
      if String.eqb k' k then Some (k', v) :: m'
      else Some (k', v') :: set k v m'
  | None :: m' => None :: set k v m'
  end.

Fixpoint delete (k : string) (m : jsmap V) : jsmap V :=
  match m with
  | [] => []
  | Some (k', v') :: m' =>
      if String.eqb k' k then None :: m'
      else Some (k', v') :: delete k m'
  | None :: m' => None :: delete k m'
  end.

(** The live entries, in insertion order: what [entries()] yields
    when the map is not modified meanwhile. *)
Definition entries (m : jsmap V) : list (string * V) := omap id m.

Definition size (m : jsmap V) : nat := length (entries m).

Definition keys (m : jsmap V) : list string := map fst (entries m).

(** No key occurs in two live entries. *)
Definition wf (m : jsmap V) : Prop := NoDup (keys m).
End Ops.
End JSMap.

(** ** The world: heap, module-level maps, clock and UUID source *)

Record World : Type := mkWorld {
  heap : list Timer;
  timers : jsmap loc;
  sessions : jsmap loc;
  conversationHistory : jsmap (list loc);
  clock : Z;
  uuid_source : nat -> string;
  uuid_calls : nat
}.

Definition with_heap (h : list Timer) (w : World) : World :=
  mkWorld h (timers w) (sessions w) (conversationHistory w)
          (clock w) (uuid_source w) (uuid_calls w).

Definition with_timers (m : jsmap loc) (w : World) : World :=
  mkWorld (heap w) m (sessions w) (conversationHistory w)
          (clock w) (uuid_source w) (uuid_calls w).

Definition with_sessions (m : jsmap loc) (w : World) : World :=
  mkWorld (heap w) (timers w) m (conversationHistory w)
          (clock w) (uuid_source w) (uuid_calls w).

Definition with_history (m : jsmap (list loc)) (w : World) : World :=
  mkWorld (heap w) (timers w) (sessions w) m
          (clock w) (uuid_source w) (uuid_calls w).

Definition with_clock (now : Z) (w : World) : World :=
  mkWorld (heap w) (timers w) (sessions w) (conversationHistory w)
          now (uuid_source w) (uuid_calls w).

Definition with_uuid_calls (n : nat) (w : World) : World :=
  mkWorld (heap w) (timers w) (sessions w) (conversationHistory w)
          (clock w) (uuid_source w) n.

(** The state of the process when the module has been loaded. *)
Definition initial_world (now : Z) (uuids : nat -> string) : World :=
  mkWorld [] [] [] [] now uuids 0.

(** ** State and failure monad

    [None] is a stuck model: a location outside the heap or an
    exhausted loop bound. JavaScript has neither; the theorems show
    that the handlers never get there. *)

Definition M (A : Type) : Type := World -> option (A * World).

Definition ret {A : Type} (a : A) : M A := fun w => Some (a, w).

Definition bind {A B : Type} (m : M A) (f : A -> M B) : M B :=
  fun w => match m w with
           | Some (a, w') => f a w'
           | None => None
           end.

Definition stuck {A : Type} : M A := fun _ => None.

Notation "x <- m ;; k" := (bind m (fun x => k))
  (at level 100, m at next level, right associativity).
Notation "m ;;; k" := (bind m (fun _ => k))
  (at level 100, right associativity).

Definition Date_now : M Z := fun w => Some (clock w, w).

(** [generateSessionId]: [crypto.randomUUID()]. *)
Definition generateSessionId : M string :=
  fun w => Some (uuid_source w (uuid_calls w), with_uuid_calls (S (uuid_calls w)) w).

(** Object creation: a new object never aliases an existing one. *)
Definition alloc (t : Timer) : M loc :=
  fun w => Some (length (heap w), with_heap (heap w ++ [t]) w).

Definition load (l : loc) : M Timer :=
  fun w => match heap w !! l with
           | Some t => Some (t, w)
           | None => None
           end.

(** A field assignment [timer.f = v]. *)
Definition assign (l : loc) (f : Timer -> Timer) : M unit :=
  fun w => match heap w !! l with
           | Some t => Some (tt, with_heap (<[l := f t]> (heap w)) w)
           | None => None
           end.

Definition timers_get (k : string) : M (option loc) :=
  fun w => Some (JSMap.get k (timers w), w).
Definition timers_set (k : string) (l : loc) : M unit :=
  fun w => Some (tt, with_timers (JSMap.set k l (timers w)) w).
Definition timers_delete (k : string) : M unit :=
  fun w => Some (tt, with_timers (JSMap.delete k (timers w)) w).
Definition sessions_set (k : string) (l : loc) : M unit :=
  fun w => Some (tt, with_sessions (JSMap.set k l (sessions w)) w).
Definition history_get (k : string) : M (option (list loc)) :=
  fun w => Some (JSMap.get k (conversationHistory w), w).
Definition history_set (k : string) (h : list loc) : M unit :=
  fun w => Some (tt, with_history (JSMap.set k h (conversationHistory w)) w).

Fixpoint mapM {A B : Type} (f : A -> M B) (l : list A) : M (list B) :=
  match l with
  | [] => ret []
  | a :: l' => b <- f a ;; bs <- mapM f l' ;; ret (b :: bs)
  end.

(** ** [stopTimer] *)

Definition stopTimer (timer : loc) : M unit :=
  t0 <- load timer ;;
  (if Status_eqb (status t0) running then
     now <- Date_now ;;
     assign timer (fun t => set_total_elapsed (total_elapsed t + (now - last_update t)) t)
   else ret tt) ;;;
  assign timer (set_status stopped) ;;;
  assign timer (fun t => set_final_duration (total_elapsed t) t) ;;;
  now <- Date_now ;;
  assign timer (set_end_time now) ;;;
  (* Store in history *)
  t <- load timer ;;
  let historyKey := key (admin_id t) (conversation_id t) in
  h <- history_get historyKey ;;
  let history := default [] h in
  copy <- alloc t ;;
  history_set historyKey (history ++ [copy]) ;;;
  (* Remove from active timers *)
  let timerKey := key (admin_id t) (conversation_id t) in
  timers_delete timerKey.

(** ** [/test-initialize] *)

Record Context : Type := mkContext {
  location : option string;
  context_conversation_id : option string
}.

Record Admin : Type := mkAdmin {
  id : option string;
  name : string
}.

Record InitializeBody : Type := mkInitializeBody {
  context : option Context;
  current_admin : option Admin
}.

(** The canvas, reduced to what it is computed from: the status shown,
    the current elapsed time passed to [formatDuration], and for each
    recent session the pair [(final_duration || 0, start_time)]. *)
Inductive InitializeResponse : Type :=
  | canvas_open_conversation
  | canvas_unable_to_identify
  | canvas_timer (shown : Status) (currentElapsed : Z) (recent : list (Z * Z)).

(** JavaScript truthiness of a possibly missing string. *)
Definition truthy_string (s : option string) : bool :=
  match s with
  | Some s' => negb (String.eqb s' "")
  | None => false
  end.

(** [history.slice(-5)] *)
Definition slice_last5 {A : Type} (l : list A) : list A :=
  drop (length l - 5)%nat l.

(** Lines 118-209: "Start or resume timer" and the canvas. *)
Definition startTimer (adminId conversationId : string) : M InitializeResponse :=
  let timerKey := key adminId conversationId in
  found <- timers_get timerKey ;;
  timer <- match found with
           | None =>
               (* Create new timer *)
               sessionId <- generateSessionId ;;
               now1 <- Date_now ;;
               now2 <- Date_now ;;
               l <- alloc (mkTimer adminId conversationId sessionId now1 0
                                   running now2 None None) ;;
               timers_set timerKey l ;;;
               sessions_set sessionId l ;;;
               ret l
           | Some l =>
               t <- load l ;;
               (if Status_eqb (status t) paused then
                  (* Resume timer *)
                  assign l (set_status running) ;;;
                  now <- Date_now ;;
                  assign l (set_last_update now)
                else ret tt) ;;;
               ret l
           end ;;
  (* Get conversation history *)
  let historyKey := key adminId conversationId in
  h <- history_get historyKey ;;
  let history := default [] h in
  let recentSessions := slice_last5 history in
  (* Calculate current elapsed time *)
  t <- load timer ;;
  running_for <- (if Status_eqb (status t) running
                  then now <- Date_now ;; ret (now - last_update t)
                  else ret 0) ;;
  let currentElapsed := total_elapsed t + running_for in
  recent <- mapM load recentSessions ;;
  ret (canvas_timer (status t) currentElapsed
         (map (fun s => (default 0 (final_duration s), start_time s)) recent)).

(** The logic run on [req.body]. *)
Definition initialize_logic (body : InitializeBody) : M InitializeResponse :=
  match context body with
  | None => ret canvas_open_conversation
  | Some ctx =>
      if negb (match location ctx with
               | Some s => String.eqb s "conversation"
               | None => false
               end)
      then ret canvas_open_conversation
      else
        let conversationId := context_conversation_id ctx in
        let adminId := current_admin body ≫= id in
        if negb (truthy_string conversationId) || negb (truthy_string adminId)
        then ret canvas_unable_to_identify
        else startTimer (default "" adminId) (default "" conversationId)
  end.

Definition mockRequest : InitializeBody :=
  mkInitializeBody
    (Some (mkContext (Some "conversation") (Some "test_conv_123")))
    (Some (mkAdmin (Some "test_admin_456") "Test Admin")).


(** ** [/api/timer/pause] and [/api/timer/resume] *)

(** The JSON body [{ success: true }], sent with status 200. *)
Record TimerResponse : Type := mkTimerResponse {
  http_status : nat;
  success : bool
}.

Definition pause (admin conversation : string) : M TimerResponse :=
  let timerKey := key admin conversation in
  found <- timers_get timerKey ;;
  match found with
  | Some timer =>
      t <- load timer ;;
      if Status_eqb (status t) running then
        now1 <- Date_now ;;
        assign timer (fun t => set_total_elapsed (total_elapsed t + (now1 - last_update t)) t) ;;;
        assign timer (set_status paused) ;;;
        now2 <- Date_now ;;
        assign timer (set_last_update now2)
      else ret tt
  | None => ret tt
  end ;;;
  ret (mkTimerResponse 200 true).

Definition resume (admin conversation : string) : M TimerResponse :=
  let timerKey := key admin conversation in
  found <- timers_get timerKey ;;
  match found with
  | Some timer =>
      t <- load timer ;;
      if Status_eqb (status t) paused then
        assign timer (set_status running) ;;;
        now <- Date_now ;;
        assign timer (set_last_update now)
      else ret tt
  | None => ret tt
  end ;;;
  ret (mkTimerResponse 200 true).

(** ** [/webhooks/conversations] *)

(** What [verifyIntercomSignature] finds, the HMAC itself left out:
    no header, a header whose length differs from the expected
    signature's ([crypto.timingSafeEqual] throws), a header of the right
    length with other bytes, or the expected signature. *)
Inductive SignatureCheck : Type :=
  | signature_missing
  | signature_length_differs
  | signature_differs
  | signature_matches.

(** [None]: the exception of [timingSafeEqual]. *)
Definition verifyIntercomSignature (s : SignatureCheck) : option bool :=
  match s with
  | signature_missing => Some false
  | signature_length_differs => None
  | signature_differs => Some false
  | signature_matches => Some true
  end.

Record WebhookRequest : Type := mkWebhookRequest {
  x_hub_signature : SignatureCheck;
  event_type : string;
  data_item_id : string
}.

Inductive WebhookResponse : Type :=
  | invalid_signature_401
  | uncaught_exception_500
  | received_200.

(** [for (const [timerKey, timer] of timers.entries()) body]. The
    iterator holds an index into the entry list of [timers] and reads
    the list as it is at each step; empty slots are skipped. With no
    [fuel] left while entries remain the model is stuck. *)
Fixpoint for_of_timers (fuel : nat) (index : nat)
    (body : string -> loc -> M unit) : M unit :=
  fun w =>
    match timers w !! index with
    | None => Some (tt, w)
    | Some e =>
        match fuel with
        | O => None
        | S fuel' =>
            match e with
            | None => for_of_timers fuel' (S index) body w
            | Some (timerKey, timer) =>
                (body timerKey timer ;;; for_of_timers fuel' (S index) body) w
            end
        end
    end.

Definition stop_if_conversation (conversationId : string)
    (timerKey : string) (timer : loc) : M unit :=
  t <- load timer ;;
  if String.eqb (conversation_id t) conversationId then stopTimer timer
  else ret tt.

(** Lines 235-244. The body only deletes from [timers], so the number
    of slots at loop entry bounds the number of iterations. *)
Definition close_conversation (conversationId : string) : M unit :=
  fun w =>
    for_of_timers (length (timers w)) 0 (stop_if_conversation conversationId) w.

Definition webhook (req : WebhookRequest) : M WebhookResponse :=
  match verifyIntercomSignature (x_hub_signature req) with
  | None => ret uncaught_exception_500
  | Some false => ret invalid_signature_401
  | Some true =>
      (if String.eqb (event_type req) "conversation.admin.closed"
       then close_conversation (data_item_id req)
       else ret tt) ;;;
      ret received_200
  end.

(** ** [/api/analytics/:admin_id] *)

(** A JavaScript number that is the result of a division. *)
Inductive JsNumber : Type :=
  | JsNum (q : Q)
  | JsNaN
  | JsInfinity (positive : bool).

(** [a / n] for an integer [a] and a length [n], as the exact
    quotient: the rounding of the source's double is not modelled. *)
Definition js_div (a : Z) (n : nat) : JsNumber :=
  match n with
  | O => if (a =? 0)%Z then JsNaN else JsInfinity (0 <? a)%Z
  | S _ => JsNum (Qred (a # Pos.of_nat n))
  end.

(** The JSON of the response, without its [formatted] strings. *)
Record AnalyticsResponse : Type := mkAnalyticsResponse {
  total_sessions : nat;
  total_time : Z;
  average_time : JsNumber;
  median_time : option Z
}.

(** [s.final_duration] as a filter condition: [undefined] and [0] are
    falsy. *)
Definition truthy_duration (s : Timer) : bool :=
  match final_duration s with
  | Some d => negb (d =? 0)%Z
  | None => false
  end.

(** [.sort((a, b) => a - b)] *)
Definition sort_ascending (l : list Z) : list Z := merge_sort Z.le l.

(** The sessions collected by the loop over [conversationHistory]. *)
Definition collect_sessions (adminId : string) (hist : jsmap (list loc)) : list loc :=
  flat_map (fun e => if String.prefix (adminId ++ "_")%string (fst e) then snd e else [])
           (JSMap.entries hist).

Definition statistics (adminSessions : list Timer) : AnalyticsResponse :=
  let durations :=
    sort_ascending (omap final_duration (filter (fun s => truthy_duration s = true) adminSessions)) in
  let totalTime := fold_left Z.add durations 0 in
  let averageTime := js_div totalTime (length durations) in
  let medianTime :=
    if (0 <? length durations)%nat
    then durations !! (length durations / 2)%nat
    else Some 0 in
  mkAnalyticsResponse (length durations) totalTime averageTime medianTime.

Definition analytics (adminId : string) : M AnalyticsResponse :=
  fun w =>
    let adminSessions := collect_sessions adminId (conversationHistory w) in
    if (length adminSessions =? 0)%nat
    then Some (mkAnalyticsResponse 0 0 (JsNum 0) (Some 0), w)
    else (objs <- mapM load adminSessions ;; ret (statistics objs)) w.

(** * Definitions for the statements *)

(** ** The operations in closed form *)

(** The fields of a timer after [stopTimer] at clock reading [now]. *)
Definition stopped_timer (now : Z) (t : Timer) : Timer :=
  let elapsed :=
    if Status_eqb (status t) running
    then total_elapsed t + (now - last_update t)
    else total_elapsed t in
  mkTimer (admin_id t) (conversation_id t) (session_id t) (start_time t)
          elapsed stopped (last_update t) (Some elapsed) (Some now).

(** The world after [stopTimer] on the object [t] at location [l]. *)
Definition after_stop (l : loc) (t : Timer) (w : World) : World :=
  let t' := stopped_timer (clock w) t in
  let k := timerKey t in
  mkWorld (<[l := t']> (heap w) ++ [t'])
          (JSMap.delete k (timers w))
          (sessions w)
          (JSMap.set k (default [] (JSMap.get k (conversationHistory w))
                          ++ [length (heap w)])
                     (conversationHistory w))
          (clock w) (uuid_source w) (uuid_calls w).

(** The fields of a running timer after [pause] at clock reading [now]. *)
Definition paused_timer (now : Z) (t : Timer) : Timer :=
  mkTimer (admin_id t) (conversation_id t) (session_id t) (start_time t)
          (total_elapsed t + (now - last_update t)) paused now
          (final_duration t) (end_time t).

(** The fields of a paused timer after [resume] (or a start) at clock
    reading [now]. *)
Definition resumed_timer (now : Z) (t : Timer) : Timer :=
  mkTimer (admin_id t) (conversation_id t) (session_id t) (start_time t)
          (total_elapsed t) running now (final_duration t) (end_time t).

(** The timer object created by [startTimer]. *)
Definition new_timer (a c : string) (w : World) : Timer :=
  mkTimer a c (uuid_source w (uuid_calls w)) (clock w) 0 running (clock w) None None.

(** The world after the creation of a timer for [(a, c)]. *)
Definition after_create (a c : string) (w : World) : World :=
  mkWorld (heap w ++ [new_timer a c w])
          (JSMap.set (key a c) (length (heap w)) (timers w))
          (JSMap.set (uuid_source w (uuid_calls w)) (length (heap w)) (sessions w))
          (conversationHistory w)
          (clock w) (uuid_source w) (S (uuid_calls w)).

(** Every location in the history lists is in the heap. *)
Definition history_in_heap (w : World) : Prop :=
  ∀ k h l, (k, h) ∈ JSMap.entries (conversationHistory w) → l ∈ h →
           is_Some (heap w !! l).

(** ** The invariant of the stores *)

(** - [timers] has no duplicate key; an entry [k ↦ l] points to an
      object whose identifiers give the key [k] and which is not
      stopped.
    - Every object registered in [sessions] (every timer ever created)
      that is not stopped is the entry of its key in [timers].
    - Every record of a history list is a stopped object with its
      [final_duration] assigned. *)
Record Inv (w : World) : Prop := mkInv {
  inv_wf : JSMap.wf (timers w);
  inv_active : ∀ k l, JSMap.get k (timers w) = Some l →
    ∃ t, heap w !! l = Some t ∧ timerKey t = k ∧ status t ≠ stopped;
  inv_created : ∀ sid l, (sid, l) ∈ JSMap.entries (sessions w) →
    ∃ t, heap w !! l = Some t ∧
         (status t ≠ stopped → JSMap.get (timerKey t) (timers w) = Some l);
  inv_history : ∀ k h l,
    (k, h) ∈ JSMap.entries (conversationHistory w) → l ∈ h →
    ∃ s, heap w !! l = Some s ∧ status s = stopped ∧
         final_duration s = Some (total_elapsed s)
}.

(** ** The loop of the webhook: what is left to stop, what has been stopped *)

(** The timers the iterator, standing at slot [i], has still to stop:
    the live entries from slot [i] on whose object is on conversation
    [c]. *)
Definition target (c : string) (i : nat) (w : World)
    (k : string) (l : loc) (t : Timer) : Prop :=
  ∃ j, (i ≤ j)%nat ∧ timers w !! j = Some (Some (k, l)) ∧
       heap w !! l = Some t ∧ conversation_id t = c.

(** The timer [t] at [l], entry of key [k] in [w], has been stopped
    once between [w] and [w']. *)
Definition finalized (k : string) (l : loc) (t : Timer) (w w' : World) : Prop :=
  JSMap.get k (timers w') = None ∧
  heap w' !! l = Some (stopped_timer (clock w) t) ∧
  ∃ l', JSMap.get k (conversationHistory w') =
          Some (default [] (JSMap.get k (conversationHistory w)) ++ [l']) ∧
        (length (heap w) ≤ l')%nat ∧
        heap w' !! l' = Some (stopped_timer (clock w) t).

(** What the loop, entered at slot [i] in [w], has done when it leaves
    in [w']: each of its targets is stopped once; every other object,
    entry and history list is as in [w]. *)
Record Post (c : string) (i : nat) (w w' : World) : Prop := mkPost {
  post_clock : clock w' = clock w;
  post_sessions : sessions w' = sessions w;
  post_uuid : uuid_source w' = uuid_source w ∧ uuid_calls w' = uuid_calls w;
  post_heap_len : (length (heap w) ≤ length (heap w'))%nat;
  post_targets : ∀ k l t, target c i w k l t → finalized k l t w w';
  post_heap : ∀ l t, heap w !! l = Some t → (∀ k, ¬ target c i w k l t) →
                     heap w' !! l = Some t;
  post_keys : ∀ k, (∀ l t, ¬ target c i w k l t) →
    JSMap.get k (timers w') = JSMap.get k (timers w) ∧
    JSMap.get k (conversationHistory w') = JSMap.get k (conversationHistory w)
}.

(** ** Requests and reachable states *)

(** [req_initialize body] is the logic of the initialize endpoints on a
    request body; [/test-initialize] is [req_initialize mockRequest].
    The source applies the logic to [mockRequest] only ([POST
    /initialize] logs the body and stops): with other bodies the
    states reached are a superset of the server's. *)
Inductive Request : Type :=
  | req_initialize (body : InitializeBody)
  | req_pause (admin conversation : string)
  | req_resume (admin conversation : string)
  | req_webhook (req : WebhookRequest)
  | req_analytics (adminId : string).

(** The response of each endpoint. *)
Inductive Response : Type :=
  | resp_initialize (r : InitializeResponse)
  | resp_timer (r : TimerResponse)
  | resp_webhook (r : WebhookResponse)
  | resp_analytics (r : AnalyticsResponse).

Definition handle (req : Request) : M Response :=
  match req with
  | req_initialize body => r <- initialize_logic body ;; ret (resp_initialize r)
  | req_pause a c => r <- pause a c ;; ret (resp_timer r)
  | req_resume a c => r <- resume a c ;; ret (resp_timer r)
  | req_webhook q => r <- webhook q ;; ret (resp_webhook r)
  | req_analytics a => r <- analytics a ;; ret (resp_analytics r)
  end.

(** The states of the server: the process starts with empty maps,
    serves one request after the other, and the clock moves in
    between. *)
Inductive reachable : World → Prop :=
  | reach_init now uuids : reachable (initial_world now uuids)
  | reach_request w req r w' :
      reachable w → handle req w = Some (r, w') → reachable w'
  | reach_clock w now : reachable w → reachable (with_clock now w).

(** ** Predicates and concrete worlds of the statements *)

(** A UUID source and a few concrete worlds for the examples. *)
Definition demo_uuids (n : nat) : string :=
  String (Ascii.ascii_of_nat (48 + n)) "".

(** A request body of the inbox for operator [a] viewing conversation
    [c]. *)
Definition demo_body (a c : string) : InitializeBody :=
  mkInitializeBody (Some (mkContext (Some "conversation") (Some c)))
                   (Some (mkAdmin (Some a) "")).

(** One running timer for operator ["A"] on conversation ["C"],
    created at clock 0. *)
Definition world_running : World :=
  after_create "A" "C" (initial_world 0 demo_uuids).

(** The timer under the key of [(a, c)], if any, has not the status
    [s]. *)
Definition no_timer_in (s : Status) (a c : string) (w : World) : Prop :=
  JSMap.get (key a c) (timers w) = None ∨
  ∃ l t, JSMap.get (key a c) (timers w) = Some l ∧ heap w !! l = Some t ∧
         status t ≠ s.




(** The "conversation closed" event for [c], with a valid signature. *)
Definition closed_event (c : string) : WebhookRequest :=
  mkWebhookRequest signature_matches "conversation.admin.closed" c.

(** Three running timers: operators ["A"] and ["B"] on conversation
    ["C"], operator ["A"] on conversation ["D"]. *)
Definition world_three : World :=
  after_create "B" "C" (after_create "A" "D" world_running).

(** One stopped timer and its history record. *)
Definition world_stopped : World :=
  after_stop 0 (new_timer "A" "C" (initial_world 0 demo_uuids)) world_running.

(** [world_three] after the closing of conversation ["C"] at clock 0. *)
Definition world_three_closed : World :=
  after_stop 2 (new_timer "B" "C" (after_create "A" "D" world_running))
    (after_stop 0 (new_timer "A" "C" (initial_world 0 demo_uuids)) world_three).

(** Serving a request in the examples below. *)
Definition serve (req : Request) (w : World) : World :=
  match handle req w with
  | Some (_, w') => w'
  | None => w
  end.

(** A history record of duration [d]. *)
Definition session_of (d : Z) : Timer :=
  mkTimer "A" "C" "s" 0 d stopped 0 (Some d) (Some d).

(** [/test-initialize] and the closing of its conversation within the
    same millisecond. *)
Definition world_zero_session : World :=
  serve (req_webhook (closed_event "test_conv_123"))
    (serve (req_initialize mockRequest) (initial_world 1000 demo_uuids)).

(** Three sessions of the operator of [/test-initialize], of durations
    0, 0 and 10000: the timer is opened and its conversation closed at
    clock 1000, twice, then opened at clock 1000 and closed at clock
    11000. *)
Definition world_durations_0_0_10000 : World :=
  let conversation_closed := req_webhook (closed_event "test_conv_123") in
  serve conversation_closed
    (with_clock 11000
       (serve (req_initialize mockRequest)
          (serve conversation_closed
             (serve (req_initialize mockRequest)
                (serve conversation_closed
                   (serve (req_initialize mockRequest)
                      (initial_world 1000 demo_uuids))))))).

(** The operator ["a_b"] opens conversation ["c"] at clock 0 and the
    conversation is closed at clock 10000; the operator ["a"] has
    never opened anything. *)
Definition world_a_b_session : World :=
  serve (req_webhook (closed_event "c"))
    (with_clock 10000
       (serve (req_initialize (demo_body "a_b" "c")) (initial_world 0 demo_uuids))).

(** Operator ["a"] has opened conversation ["b_c"] at clock 0. *)
Definition world_a_timer : World :=
  serve (req_initialize (demo_body "a" "b_c")) (initial_world 0 demo_uuids).

(** The timer of [/test-initialize], opened at clock 0. *)
Definition world_test_timer : World :=
  serve (req_initialize mockRequest) (initial_world 0 demo_uuids).

(** Its conversation closed at clock 10000. *)
Definition world_test_session : World :=
  serve (req_webhook (closed_event "test_conv_123"))
    (with_clock 10000 world_test_timer).


From Stdlib Require Qround.

(** * Further definitions: effects, cycles, the other endpoints *)

(** ** The elementary effects of the handlers *)

(** What a request does to the world is a sequence of these: the
    creation of a timer under a free key, the pause of a running
    entry, the resumption of a paused entry, and [stopTimer] on an
    entry. *)
Inductive effect : World → World → Prop :=
  | effect_create a c w :
      JSMap.get (key a c) (timers w) = None →
      effect w (after_create a c w)
  | effect_pause l t w :
      JSMap.get (timerKey t) (timers w) = Some l → heap w !! l = Some t →
      status t = running →
      effect w (with_heap (<[l := paused_timer (clock w) t]> (heap w)) w)
  | effect_resume l t w :
      JSMap.get (timerKey t) (timers w) = Some l → heap w !! l = Some t →
      status t = paused →
      effect w (with_heap (<[l := resumed_timer (clock w) t]> (heap w)) w)
  | effect_stop l t w :
      JSMap.get (timerKey t) (timers w) = Some l → heap w !! l = Some t →
      effect w (after_stop l t w).

(** Zero or more effects in a row. *)
Inductive effects : World → World → Prop :=
  | effects_nil w : effects w w
  | effects_cons w1 w2 w3 : effect w1 w2 → effects w2 w3 → effects w1 w3.

(** The states of a server whose clock never goes back. *)
Inductive reachable_forward : World → Prop :=
  | forward_init now uuids : reachable_forward (initial_world now uuids)
  | forward_request w req r w' :
      reachable_forward w → handle req w = Some (r, w') → reachable_forward w'
  | forward_clock w now :
      reachable_forward w → (clock w ≤ now)%Z → reachable_forward (with_clock now w).

(** ** Sequences of pauses and resumptions *)

(** A handler run at clock reading [now]. *)
Definition at_clock {A : Type} (now : Z) (m : M A) : M A :=
  fun w => m (with_clock now w).

(** For each pair [(p, r)] of the list, in order: a pause request at
    clock [p], then a resume request at clock [r]. *)
Fixpoint pause_resume_cycles (a c : string) (cycles : list (Z * Z)) : M unit :=
  match cycles with
  | [] => ret tt
  | (p, r) :: rest =>
      at_clock p (pause a c) ;;;
      at_clock r (resume a c) ;;;
      pause_resume_cycles a c rest
  end.

(** The time spent running from [from] to [stop] with the given pauses:
    the intervals from each resumption to the next pause. *)
Fixpoint running_time (from : Z) (cycles : list (Z * Z)) (stop : Z) : Z :=
  match cycles with
  | [] => stop - from
  | (p, r) :: rest => (p - from) + running_time r rest stop
  end.

(** What the canvas shows of a history record. *)
Definition recent_line (s : Timer) : Z * Z :=
  (default 0 (final_duration s), start_time s).

(** The running timer of [world_running], paused at clock 10000. *)
Definition world_paused : World :=
  serve (req_pause "A" "C") (with_clock 10000 world_running).

(** ** Times and durations *)

(** The times of an object are in order at clock reading [now]: the
    creation is not after the last update, which is not after [now];
    the accumulated time is not negative; on an object that is not
    stopped it is at most the time from the creation to the last
    update; a stopped object has its [final_duration] and its
    [end_time], the duration being the accumulated time and at most
    the time from the creation to the end. ([stopTimer] adds the time
    since [last_update] without assigning [last_update], so a stopped
    object is bounded by its [end_time] only.) *)
Definition times_in_order (now : Z) (t : Timer) : Prop :=
  (0 ≤ total_elapsed t)%Z ∧
  (start_time t ≤ last_update t)%Z ∧ (last_update t ≤ now)%Z ∧
  (status t ≠ stopped → (total_elapsed t ≤ last_update t - start_time t)%Z) ∧
  (status t = stopped →
   ∃ e, end_time t = Some e ∧ final_duration t = Some (total_elapsed t) ∧
        (total_elapsed t ≤ e - start_time t)%Z ∧ (e ≤ now)%Z).

(** ** The history between two states *)

(** From [w] to [w'] every history list has only grown at its end, and
    the records it held are the same objects with the same fields. *)
Definition history_kept (w w' : World) : Prop :=
  ∀ k h, JSMap.get k (conversationHistory w) = Some h →
    (∃ h', JSMap.get k (conversationHistory w') = Some (h ++ h')) ∧
    (∀ l, l ∈ h → heap w' !! l = heap w !! l).

(** ** [verifyIntercomSignature] on strings *)

(** Lines 35-47 on the header value and on [expectedSignature], the
    string ['sha1=' + digest]: a missing or empty header is rejected;
    [crypto.timingSafeEqual] throws on buffers of different lengths
    and compares the bytes otherwise. *)
Definition check_signature (signature : option string) (expectedSignature : string)
    : SignatureCheck :=
  match signature with
  | None => signature_missing
  | Some s =>
      if String.eqb s "" then signature_missing
      else if negb (String.length s =? String.length expectedSignature)%nat
           then signature_length_differs
           else if String.eqb s expectedSignature then signature_matches
                else signature_differs
  end.

(** The webhook request with header [signature], for a payload whose
    HMAC-SHA1 hex digest under the secret is [digest]. *)
Definition signed_request (signature : option string) (digest : string)
    (type conversationId : string) : WebhookRequest :=
  mkWebhookRequest (check_signature signature ("sha1=" ++ digest)%string)
                   type conversationId.

(** ** [/health] and [/dashboard] *)

Record HealthResponse : Type := mkHealthResponse {
  health_status : string;
  active_timers : nat;
  health_total_sessions : nat
}.

Definition health : M HealthResponse :=
  fun w => Some (mkHealthResponse "ok" (JSMap.size (timers w))
                   (JSMap.size (sessions w)), w).

(** A [div] of the page: the identifiers, the status (also the CSS
    class), the elapsed time passed to [formatDuration] and the start
    time. *)
Record DashboardRow : Type := mkDashboardRow {
  row_admin_id : string;
  row_conversation_id : string;
  row_status : Status;
  row_elapsed : Z;
  row_started : Z
}.

Record DashboardPage : Type := mkDashboardPage {
  page_active_timers : nat;
  page_total_sessions : nat;
  page_rows : list DashboardRow
}.

Definition dashboard_row (entry : string * loc) : M DashboardRow :=
  t <- load (snd entry) ;;
  running_for <- (if Status_eqb (status t) running
                  then now <- Date_now ;; ret (now - last_update t)
                  else ret 0) ;;
  let currentElapsed := total_elapsed t + running_for in
  ret (mkDashboardRow (admin_id t) (conversation_id t) (status t)
         currentElapsed (start_time t)).

(** [Array.from(timers.entries()).map(...)] inside the page. *)
Definition dashboard : M DashboardPage :=
  fun w =>
    (rows <- mapM dashboard_row (JSMap.entries (timers w)) ;;
     ret (mkDashboardPage (JSMap.size (timers w)) (JSMap.size (sessions w)) rows)) w.

(** The row of the dashboard for the timer [t] at clock [now]. *)
Definition row_of (now : Z) (t : Timer) : DashboardRow :=
  mkDashboardRow (admin_id t) (conversation_id t) (status t)
    (total_elapsed t + (if Status_eqb (status t) running then now - last_update t else 0))
    (start_time t).

(** A UUID source without repetition, for the examples. *)
Fixpoint unary_uuid (n : nat) : string :=
  match n with
  | O => "u"
  | S n' => String (Ascii.ascii_of_nat 120) (unary_uuid n')
  end.

(** Two timers created, one of them stopped. *)
Definition world_two_created : World :=
  serve (req_webhook (closed_event "C"))
    (serve (req_initialize (demo_body "B" "D"))
       (serve (req_initialize (demo_body "A" "C")) (initial_world 0 unary_uuid))).

(** ** Sums and identifiers, for the statements on the analytics *)

(** The [final_duration] of a session, [0] when it has none. *)
Definition duration_or_zero (s : Timer) : Z := default 0 (final_duration s).

(** The durations that the analytics handler keeps: defined and
    non-zero. *)
Definition kept_durations (ss : list Timer) : list Z :=
  omap final_duration (filter (λ s, truthy_duration s = true) ss).

(** Two sessions, of 30 and 10 seconds. *)
Definition two_sessions : list Timer := map session_of [30000; 10000].

(** The character ['_'] occurs in the string. *)
Fixpoint has_underscore (s : string) : bool :=
  match s with
  | EmptyString => false
  | String ch s' => Ascii.eqb ch (Ascii.ascii_of_nat 95) || has_underscore s'
  end.

(** ** [formatDuration] *)

(** The character of a decimal digit. *)
Definition digit_char (d : Z) : Ascii.ascii := Ascii.ascii_of_nat (48 + Z.to_nat d).

(** The decimal digits of [n >= 0], most significant first; [fuel]
    bounds the number of digits. *)
Fixpoint decimal_digits (fuel : nat) (n : Z) : string :=
  match fuel with
  | O => ""
  | S fuel' =>
      if (n <? 10)%Z then String (digit_char n) ""
      else (decimal_digits fuel' (n / 10) ++ String (digit_char (n mod 10)) "")%string
  end.

(** [n.toString()] for an integer [n] (below 10^21 in absolute value,
    where JavaScript prints all the digits). *)
Definition Z_toString (n : Z) : string :=
  if (n <? 0)%Z
  then ("-" ++ decimal_digits (S (Z.to_nat (Z.log2 (- n)))) (- n))%string
  else decimal_digits (S (Z.to_nat (Z.log2 n))) n.

Fixpoint zeros (n : nat) : string :=
  match n with
  | O => ""
  | S n' => String (Ascii.ascii_of_nat 48) (zeros n')
  end.

(** [s.padStart(targetLength, '0')] *)
Definition padStart0 (targetLength : nat) (s : string) : string :=
  (zeros (targetLength - String.length s) ++ s)%string.

(** Lines 27-33, on a JavaScript number. [%] is the remainder with the
    sign of the dividend, [Z.rem]; [Math.floor] of a quotient of
    integers is [Z.div]. The arithmetic is exact and every digit is
    printed: this is the source's result for numbers of magnitude
    below [2^53]; beyond, the source's doubles round the quotient, and
    from [1e21] on [toString] uses the exponent notation. *)
Definition formatDuration (milliseconds : JsNumber) : string :=
  match milliseconds with
  | JsNum q =>
      let totalSeconds := Qround.Qfloor (q / inject_Z 1000) in
      let hours := totalSeconds / 3600 in
      let minutes := Z.rem totalSeconds 3600 / 60 in
      let seconds := Z.rem totalSeconds 60 in
      (padStart0 2 (Z_toString hours) ++ ":" ++
       padStart0 2 (Z_toString minutes) ++ ":" ++
       padStart0 2 (Z_toString seconds))%string
  | JsNaN => "NaN:NaN:NaN"
  | JsInfinity true => "Infinity:NaN:NaN"
  | JsInfinity false => "-Infinity:NaN:NaN"
  end.

(** [formatDuration] of a whole number of milliseconds. *)
Definition formatDuration_ms (ms : Z) : string := formatDuration (JsNum (inject_Z ms)).

(** Reading a string of decimal digits back. *)
Definition digits_value (s : string) : Z :=
  fold_left (λ acc ch, acc * 10 + (Z.of_nat (Ascii.nat_of_ascii ch) - 48))
            (list_ascii_of_string s) 0.

(** * Properties *)

Lemma Status_eqb_eq (a b : Status) : Status_eqb a b = true <-> a = b.
Proof. destruct a, b; simpl; split; congruence. Qed.

(** ** The [Map] operations *)

Section JSMapFacts.
Context {V : Type}.
Implicit Types (m : jsmap V) (k : string) (v : V).

Lemma keys_cons_Some k v m :
  JSMap.keys (Some (k, v) :: m) = k :: JSMap.keys m.
Proof. reflexivity. Qed.

Lemma keys_cons_None m : JSMap.keys (None :: m) = JSMap.keys m.
Proof. reflexivity. Qed.

Lemma get_set_eq k v m : JSMap.get k (JSMap.set k v m) = Some v.
Proof.
  induction m as [|[[k' v']|] m IH]; simpl.
  - by rewrite String.eqb_refl.
  - destruct (String.eqb_spec k' k) as [->|Hne]; simpl.
    + by rewrite String.eqb_refl.
    + by apply String.eqb_neq in Hne as ->.
  - done.
Qed.

Lemma get_set_ne k k' v m :
  k ≠ k' → JSMap.get k' (JSMap.set k v m) = JSMap.get k' m.
Proof.
  intros Hne. induction m as [|[[k0 v0]|] m IH]; simpl.
  - by apply String.eqb_neq in Hne as ->.
  - destruct (String.eqb_spec k0 k) as [->|Hne0]; simpl.
    + by apply String.eqb_neq in Hne as ->.
    + by rewrite IH.
  - done.
Qed.

Lemma get_delete_ne k k' m :
  k ≠ k' → JSMap.get k' (JSMap.delete k m) = JSMap.get k' m.
Proof.
  intros Hne. induction m as [|[[k0 v0]|] m IH]; simpl; try done.
  destruct (String.eqb_spec k0 k) as [->|Hne0]; simpl.
  - by apply String.eqb_neq in Hne as ->.
  - by rewrite IH.
Qed.

Lemma get_None_keys k m : JSMap.get k m = None ↔ k ∉ JSMap.keys m.
Proof.
  induction m as [|[[k0 v0]|] m IH]; simpl.
  - split; [intros _; apply not_elem_of_nil | done].
  - rewrite keys_cons_Some, not_elem_of_cons.
    destruct (String.eqb_spec k0 k) as [->|Hne0]; [naive_solver|].
    rewrite IH. naive_solver.
  - by rewrite keys_cons_None.
Qed.

Lemma get_Some_keys k v m : JSMap.get k m = Some v → k ∈ JSMap.keys m.
Proof.
  intros H. destruct (decide (k ∈ JSMap.keys m)) as [|Hn]; [done|].
  apply get_None_keys in Hn. congruence.
Qed.

Lemma delete_notin k m : k ∉ JSMap.keys m → JSMap.delete k m = m.
Proof.
  induction m as [|[[k0 v0]|] m IH]; simpl; try done.
  - rewrite keys_cons_Some, not_elem_of_cons. intros [Hne Hn].
    destruct (String.eqb_spec k0 k) as [->|_]; [done|]. by rewrite IH.
  - rewrite keys_cons_None. intros Hn. by rewrite IH.
Qed.

Lemma keys_delete_subseteq k m : JSMap.keys (JSMap.delete k m) ⊆ JSMap.keys m.
Proof.
  induction m as [|[[k0 v0]|] m IH]; simpl; try done.
  - destruct (String.eqb_spec k0 k) as [->|_].
    + rewrite keys_cons_None, keys_cons_Some. set_solver.
    + rewrite !keys_cons_Some. set_solver.
Qed.

Lemma wf_delete k m : JSMap.wf m → JSMap.wf (JSMap.delete k m).
Proof.
  unfold JSMap.wf. induction m as [|[[k0 v0]|] m IH]; simpl; try done.
  - rewrite keys_cons_Some, NoDup_cons. intros [Hn Hnd].
    destruct (String.eqb_spec k0 k) as [->|_].
    + by rewrite keys_cons_None.
    + rewrite keys_cons_Some, NoDup_cons. split; [|by apply IH].
      intros Hin. by apply keys_delete_subseteq in Hin.
Qed.

Lemma get_delete_eq k m : JSMap.wf m → JSMap.get k (JSMap.delete k m) = None.
Proof.
  unfold JSMap.wf. induction m as [|[[k0 v0]|] m IH]; simpl; try done.
  rewrite keys_cons_Some, NoDup_cons. intros [Hn Hnd].
  destruct (String.eqb_spec k0 k) as [->|Hne]; simpl.
  - by apply get_None_keys.
  - apply String.eqb_neq in Hne as ->. by apply IH.
Qed.

Lemma keys_set k v m :
  JSMap.keys (JSMap.set k v m) =
    if bool_decide (k ∈ JSMap.keys m) then JSMap.keys m else JSMap.keys m ++ [k].
Proof.
  induction m as [|[[k0 v0]|] m IH]; simpl.
  - done.
  - destruct (String.eqb_spec k0 k) as [->|Hne].
    + rewrite !keys_cons_Some. rewrite bool_decide_eq_true_2; [done|set_solver].
    + rewrite !keys_cons_Some, IH.
      destruct (decide (k ∈ JSMap.keys m)) as [Hin|Hn].
      * rewrite !bool_decide_eq_true_2; [done|set_solver|done].
      * rewrite !bool_decide_eq_false_2; [done|set_solver|done].
  - by rewrite !keys_cons_None.
Qed.

Lemma wf_set k v m : JSMap.wf m → JSMap.wf (JSMap.set k v m).
Proof.
  unfold JSMap.wf. rewrite keys_set. case_bool_decide; [done|].
  intros Hnd. apply NoDup_app. split_and!; [done| |apply NoDup_singleton].
  intros x Hx Hx'. apply list_elem_of_singleton in Hx'. by subst.
Qed.

Lemma length_delete k m : length (JSMap.delete k m) = length m.
Proof.
  induction m as [|[[k0 v0]|] m IH]; simpl; try done; [|by rewrite IH].
  destruct (String.eqb k0 k); simpl; by rewrite ?IH.
Qed.

Lemma lookup_keys i k v m : m !! i = Some (Some (k, v)) → k ∈ JSMap.keys m.
Proof.
  revert i. induction m as [|[[k0 v0]|] m IH]; intros [|i]; simpl; try done.
  - intros [= -> ->]. rewrite keys_cons_Some. set_solver.
  - intros H. rewrite keys_cons_Some. apply IH in H. set_solver.
  - intros H. rewrite keys_cons_None. by apply IH in H.
Qed.

(** In a well-formed map the entry found at a slot is the entry of
    its key. *)
Lemma lookup_get i k v m :
  JSMap.wf m → m !! i = Some (Some (k, v)) → JSMap.get k m = Some v.
Proof.
  unfold JSMap.wf. revert i.
  induction m as [|[[k0 v0]|] m IH]; intros [|i]; simpl; try done.
  - intros _ [= -> ->]. by rewrite String.eqb_refl.
  - rewrite keys_cons_Some, NoDup_cons. intros [Hn Hnd] H.
    destruct (String.eqb_spec k0 k) as [->|_].
    + by apply lookup_keys in H.
    + by apply (IH i).
  - rewrite keys_cons_None. intros Hnd H. by apply (IH i).
Qed.

Lemma get_lookup k v m :
  JSMap.get k m = Some v → ∃ i, m !! i = Some (Some (k, v)).
Proof.
  induction m as [|[[k0 v0]|] m IH]; simpl; try done.
  - destruct (String.eqb_spec k0 k) as [->|_].
    + intros [= ->]. by exists 0%nat.
    + intros H. destruct (IH H) as [i Hi]. by exists (S i).
  - intros H. destruct (IH H) as [i Hi]. by exists (S i).
Qed.

(** Deleting the key of the entry at slot [i] empties slot [i] and
    nothing else. *)
Lemma delete_lookup i k v m :
  JSMap.wf m → m !! i = Some (Some (k, v)) → JSMap.delete k m = <[i := None]> m.
Proof.
  unfold JSMap.wf. revert i.
  induction m as [|[[k0 v0]|] m IH]; intros [|i]; simpl; try done.
  - intros _ [= -> ->]. by rewrite String.eqb_refl.
  - rewrite keys_cons_Some, NoDup_cons. intros [Hn Hnd] H.
    destruct (String.eqb_spec k0 k) as [->|_].
    + by apply lookup_keys in H.
    + f_equal. by apply IH.
  - rewrite keys_cons_None. intros Hnd H. f_equal. by apply IH.
Qed.
End JSMapFacts.

(** ** Running the primitives *)

Lemma bind_run {A B : Type} (m : M A) (f : A → M B) w a w' :
  m w = Some (a, w') → bind m f w = f a w'.
Proof. unfold bind. by intros ->. Qed.

Lemma load_run l t w : heap w !! l = Some t → load l w = Some (t, w).
Proof. unfold load. by intros ->. Qed.

Lemma assign_run l f t w :
  heap w !! l = Some t →
  assign l f w = Some (tt, with_heap (<[l := f t]> (heap w)) w).
Proof. unfold assign. by intros ->. Qed.

Lemma heap_insert_lookup l t t' (h : list Timer) :
  h !! l = Some t → <[l := t']> h !! l = Some t'.
Proof. intros H. apply list_lookup_insert_eq. by eapply lookup_lt_Some. Qed.

(** Unfolds one handler into the world it produces, given the heap
    cells it reads. *)
Ltac mrun :=
  repeat first
    [ progress (unfold bind, ret, assign, Date_now, alloc, timers_get,
                timers_set, timers_delete, sessions_set, history_get,
                history_set, generateSessionId; cbn)
    | erewrite load_run
        by (cbn; first [ eassumption
                       | eapply heap_insert_lookup; eassumption ])
    | erewrite heap_insert_lookup by eassumption
    | rewrite list_insert_insert_eq
    | rewrite length_insert
    | match goal with H : heap _ !! _ = Some _ |- _ => rewrite H end
    | match goal with H : JSMap.get _ _ = _ |- _ => rewrite H end ].

(** ** What [stopTimer] does *)

Lemma stopTimer_run l t w :
  heap w !! l = Some t → stopTimer l w = Some (tt, after_stop l t w).
Proof.
  intros H. unfold stopTimer, after_stop, stopped_timer, timerKey.
  destruct t as [a c s st te [] lu fd et]; mrun; reflexivity.
Qed.

(** ** What [pause], [resume] and [startTimer] do *)

Lemma pause_absent a c w :
  JSMap.get (key a c) (timers w) = None →
  pause a c w = Some (mkTimerResponse 200 true, w).
Proof. intros H. unfold pause. by mrun. Qed.

Lemma pause_not_running a c l t w :
  JSMap.get (key a c) (timers w) = Some l → heap w !! l = Some t →
  status t ≠ running →
  pause a c w = Some (mkTimerResponse 200 true, w).
Proof. intros Hk Hl Hs. unfold pause. destruct t as [? ? ? ? ? [] ? ? ?]; by mrun. Qed.

Lemma pause_running a c l t w :
  JSMap.get (key a c) (timers w) = Some l → heap w !! l = Some t →
  status t = running →
  pause a c w =
    Some (mkTimerResponse 200 true,
          with_heap (<[l := paused_timer (clock w) t]> (heap w)) w).
Proof.
  intros Hk Hl Hs. unfold pause, paused_timer.
  destruct t as [? ? ? ? ? [] ? ? ?]; try done. by mrun.
Qed.

Lemma resume_absent a c w :
  JSMap.get (key a c) (timers w) = None →
  resume a c w = Some (mkTimerResponse 200 true, w).
Proof. intros H. unfold resume. by mrun. Qed.

Lemma resume_not_paused a c l t w :
  JSMap.get (key a c) (timers w) = Some l → heap w !! l = Some t →
  status t ≠ paused →
  resume a c w = Some (mkTimerResponse 200 true, w).
Proof. intros Hk Hl Hs. unfold resume. destruct t as [? ? ? ? ? [] ? ? ?]; by mrun. Qed.

Lemma resume_paused a c l t w :
  JSMap.get (key a c) (timers w) = Some l → heap w !! l = Some t →
  status t = paused →
  resume a c w =
    Some (mkTimerResponse 200 true,
          with_heap (<[l := resumed_timer (clock w) t]> (heap w)) w).
Proof.
  intros Hk Hl Hs. unfold resume, resumed_timer.
  destruct t as [? ? ? ? ? [] ? ? ?]; try done. by mrun.
Qed.

(** Reading a list of objects leaves the world as it is. *)
Lemma mapM_load_run (ls : list loc) w :
  (∀ l, l ∈ ls → is_Some (heap w !! l)) →
  ∃ ts, mapM load ls w = Some (ts, w).
Proof.
  induction ls as [|l ls IH]; intros Hall; simpl.
  - by exists [].
  - destruct (Hall l) as [t Ht]; [set_solver|].
    destruct IH as [ts Hts]; [intros l' Hl'; apply Hall; set_solver|].
    exists (t :: ts). unfold bind. by rewrite (load_run _ _ _ Ht), Hts.
Qed.

Lemma mapM_load_world (ls : list loc) ts w w' :
  mapM load ls w = Some (ts, w') → w' = w.
Proof.
  revert ts. induction ls as [|l ls IH]; intros ts; simpl.
  - unfold ret. intros H. by simplify_eq.
  - unfold bind. destruct (load l w) as [[t w1]|] eqn:El; [|done].
    assert (w1 = w) as ->.
    { unfold load in El. destruct (heap w !! l); by simplify_eq. }
    destruct (mapM load ls w) as [[ts' w'']|] eqn:E; [|done].
    unfold ret. intros H. simplify_eq. by eapply IH.
Qed.

Lemma get_entries {V : Type} k (v : V) (m : jsmap V) :
  JSMap.get k m = Some v → (k, v) ∈ JSMap.entries m.
Proof.
  unfold JSMap.entries.
  induction m as [|[[k0 v0]|] m IH]; simpl; try done.
  destruct (String.eqb_spec k0 k) as [->|_].
  - intros [= ->]. set_solver.
  - intros H. apply IH in H. set_solver.
Qed.

Lemma recent_in_heap k w :
  history_in_heap w →
  ∀ l, l ∈ slice_last5 (default [] (JSMap.get k (conversationHistory w))) →
       is_Some (heap w !! l).
Proof.
  intros Hh l Hl. destruct (JSMap.get k (conversationHistory w)) as [h|] eqn:E; simpl in Hl.
  - apply (Hh k h l); [by apply get_entries|].
    unfold slice_last5 in Hl. by eapply subseteq_drop.
  - unfold slice_last5 in Hl. simpl in Hl. set_solver.
Qed.

Lemma startTimer_absent a c w :
  JSMap.get (key a c) (timers w) = None → history_in_heap w →
  ∃ r, startTimer a c w = Some (r, after_create a c w).
Proof.
  intros Hk Hh. unfold startTimer. mrun.
  erewrite (load_run _ (new_timer a c w))
    by (cbn; rewrite lookup_app_r, Nat.sub_diag by lia; reflexivity).
  mrun.
  match goal with |- context [mapM load ?ls ?w'] =>
    destruct (mapM_load_run ls w') as [ts Hts] end.
  { intros l Hl. cbn. destruct (recent_in_heap (key a c) w Hh l Hl) as [t Ht].
    exists t. by apply lookup_app_l_Some. }
  rewrite Hts. eexists. reflexivity.
Qed.

Lemma startTimer_running a c l t w :
  JSMap.get (key a c) (timers w) = Some l → heap w !! l = Some t →
  status t = running → history_in_heap w →
  ∃ r, startTimer a c w = Some (r, w).
Proof.
  intros Hk Hl Hs Hh. unfold startTimer. mrun. rewrite Hs. mrun.
  rewrite Hs. mrun.
  match goal with |- context [mapM load ?ls ?w'] =>
    destruct (mapM_load_run ls w') as [ts Hts] end.
  { intros l' Hl'. exact (recent_in_heap (key a c) w Hh l' Hl'). }
  rewrite Hts. eexists. reflexivity.
Qed.

Lemma startTimer_paused a c l t w :
  JSMap.get (key a c) (timers w) = Some l → heap w !! l = Some t →
  status t = paused → history_in_heap w →
  ∃ r, startTimer a c w =
         Some (r, with_heap (<[l := resumed_timer (clock w) t]> (heap w)) w).
Proof.
  intros Hk Hl Hs Hh. unfold startTimer, resumed_timer.
  destruct t as [? ? ? ? ? [] ? ? ?]; try done. mrun.
  match goal with |- context [mapM load ?ls ?w'] =>
    destruct (mapM_load_run ls w') as [ts Hts] end.
  { intros l' Hl'. cbn. destruct (recent_in_heap (key a c) w Hh l' Hl') as [t' Ht'].
    apply lookup_lt_is_Some. rewrite length_insert. by eapply lookup_lt_Some. }
  rewrite Hts. eexists. reflexivity.
Qed.

(** ** The invariant holds initially and is kept by each effect *)

Lemma entries_set {V : Type} k (v : V) (m : jsmap V) e :
  e ∈ JSMap.entries (JSMap.set k v m) → e = (k, v) ∨ e ∈ JSMap.entries m.
Proof.
  unfold JSMap.entries.
  induction m as [|[[k0 v0]|] m IH]; simpl.
  - set_solver.
  - destruct (String.eqb_spec k0 k) as [->|_]; simpl; set_solver.
  - done.
Qed.

Lemma Inv_history_in_heap w : Inv w → history_in_heap w.
Proof.
  intros HI k h l Hk Hl. destruct (inv_history w HI k h l Hk Hl) as (s & Hs & _).
  by exists s.
Qed.

Lemma Inv_initial now uuids : Inv (initial_world now uuids).
Proof.
  split; simpl.
  - apply NoDup_nil_2.
  - done.
  - intros sid l H. by apply elem_of_nil in H.
  - intros k h l H. by apply elem_of_nil in H.
Qed.

Lemma Inv_with_clock now w : Inv w → Inv (with_clock now w).
Proof. intros [H1 H2 H3 H4]. by split. Qed.

(** Rewriting a live timer in place, identifiers kept and status not
    [stopped]: what [pause] and [resume] do. *)
Lemma Inv_update l t t' w :
  Inv w → JSMap.get (timerKey t) (timers w) = Some l → heap w !! l = Some t →
  timerKey t' = timerKey t → status t' ≠ stopped →
  Inv (with_heap (<[l := t']> (heap w)) w).
Proof.
  intros [H1 H2 H3 H4] Hk Hl Hkey Hst.
  assert (Hlt : (l < length (heap w))%nat) by by eapply lookup_lt_Some.
  destruct (H2 _ _ Hk) as (t0 & Ht0 & _ & Hns). assert (t0 = t) as -> by congruence.
  split; cbn.
  - done.
  - intros k l' Hg. destruct (decide (l' = l)) as [->|Hne].
    + exists t'. rewrite list_lookup_insert_eq by done.
      destruct (H2 _ _ Hg) as (t1 & Ht1 & Hk1 & _).
      split_and!; [done| |done]. congruence.
    + rewrite list_lookup_insert_ne by done. by apply H2.
  - intros sid l' Hin. destruct (decide (l' = l)) as [->|Hne].
    + exists t'. rewrite list_lookup_insert_eq by done. split; [done|].
      intros _. by rewrite Hkey.
    + rewrite list_lookup_insert_ne by done. by eapply H3.
  - intros k h l' Hin Hl'. destruct (H4 _ _ _ Hin Hl') as (s & Hs & Hss & Hfd).
    exists s. rewrite list_lookup_insert_ne; [done|].
    intros ->. congruence.
Qed.

Lemma Inv_after_create a c w :
  Inv w → JSMap.get (key a c) (timers w) = None → Inv (after_create a c w).
Proof.
  intros [H1 H2 H3 H4] Hk. split; cbn.
  - by apply wf_set.
  - intros k l Hg. destruct (decide (key a c = k)) as [<-|Hne].
    + rewrite get_set_eq in Hg. simplify_eq. exists (new_timer a c w).
      rewrite lookup_app_r, Nat.sub_diag by lia. done.
    + rewrite get_set_ne in Hg by done.
      destruct (H2 _ _ Hg) as (t & Ht & Hkt & Hs). exists t.
      split_and!; [|done|done]. by apply lookup_app_l_Some.
  - intros sid l Hin. apply entries_set in Hin as [Heq|Hin].
    + simplify_eq. exists (new_timer a c w).
      rewrite lookup_app_r, Nat.sub_diag by lia. split; [done|].
      intros _. apply get_set_eq.
    + destruct (H3 _ _ Hin) as (t & Ht & Hact). exists t.
      split; [by apply lookup_app_l_Some|]. intros Hs.
      rewrite get_set_ne; [by apply Hact|].
      intros Heq. rewrite <- Heq, Hk in Hact. by specialize (Hact Hs).
  - intros k h l Hin Hl. destruct (H4 _ _ _ Hin Hl) as (s & Hs & Hrest).
    exists s. split; [by apply lookup_app_l_Some|done].
Qed.

Lemma stopped_timer_key now t : timerKey (stopped_timer now t) = timerKey t.
Proof. reflexivity. Qed.

Lemma Inv_after_stop l t w :
  Inv w → JSMap.get (timerKey t) (timers w) = Some l → heap w !! l = Some t →
  Inv (after_stop l t w).
Proof.
  intros [H1 H2 H3 H4] Hk Hl.
  assert (Hlt : (l < length (heap w))%nat) by by eapply lookup_lt_Some.
  destruct (H2 _ _ Hk) as (t0 & Ht0 & _ & Hns). assert (t0 = t) as -> by congruence.
  split; cbn.
  - by apply wf_delete.
  - intros k l' Hg. destruct (decide (timerKey t = k)) as [<-|Hne].
    { by rewrite get_delete_eq in Hg. }
    rewrite get_delete_ne in Hg by done.
    destruct (H2 _ _ Hg) as (t1 & Ht1 & Hk1 & Hs1). exists t1.
    split_and!; [|done|done].
    rewrite lookup_app_l by (rewrite length_insert; by eapply lookup_lt_Some).
    rewrite list_lookup_insert_ne; [done|]. intros ->. congruence.
  - intros sid l' Hin. destruct (H3 _ _ Hin) as (t1 & Ht1 & Hact).
    destruct (decide (l' = l)) as [->|Hne].
    + exists (stopped_timer (clock w) t).
      rewrite lookup_app_l by by rewrite length_insert.
      rewrite list_lookup_insert_eq by done. split; [done|]. by intros [].
    + exists t1.
      rewrite lookup_app_l by (rewrite length_insert; by eapply lookup_lt_Some).
      rewrite list_lookup_insert_ne by done. split; [done|]. intros Hs.
      specialize (Hact Hs). rewrite get_delete_ne; [done|].
      intros Heq. rewrite <- Heq in Hact. congruence.
  - intros k h l' Hin Hl'. apply entries_set in Hin as [Heq|Hin].
    + simplify_eq. apply elem_of_app in Hl' as [Hl'|Hl'].
      * destruct (JSMap.get (timerKey t) (conversationHistory w)) as [h0|] eqn:E;
          simpl in Hl'; [|by apply elem_of_nil in Hl'].
        destruct (H4 _ _ _ (get_entries _ _ _ E) Hl') as (s & Hs & Hss & Hfd).
        exists s. split; [|done].
        rewrite lookup_app_l by (rewrite length_insert; by eapply lookup_lt_Some).
        rewrite list_lookup_insert_ne; [done|]. intros ->. congruence.
      * apply list_elem_of_singleton in Hl' as ->.
        exists (stopped_timer (clock w) t).
        rewrite lookup_app_r by by rewrite length_insert.
        rewrite length_insert, Nat.sub_diag. done.
    + destruct (H4 _ _ _ Hin Hl') as (s & Hs & Hss & Hfd).
      exists s. split; [|done].
      rewrite lookup_app_l by (rewrite length_insert; by eapply lookup_lt_Some).
      rewrite list_lookup_insert_ne; [done|]. intros ->. congruence.
Qed.

(** ** The loop of the "conversation closed" webhook *)

Lemma wf_slot_unique {V : Type} (m : jsmap V) i j k v v' :
  JSMap.wf m → m !! i = Some (Some (k, v)) → m !! j = Some (Some (k, v')) → i = j.
Proof.
  unfold JSMap.wf. revert i j.
  induction m as [|[[k0 v0]|] m IH]; intros [|i] [|j]; simpl; try done.
  - rewrite keys_cons_Some, NoDup_cons. intros [Hn _] [= -> ->] H.
    by apply lookup_keys in H.
  - rewrite keys_cons_Some, NoDup_cons. intros [Hn _] H [= -> ->].
    by apply lookup_keys in H.
  - rewrite keys_cons_Some, NoDup_cons. intros [_ Hnd] Hi Hj. f_equal. by eapply IH.
  - rewrite keys_cons_None. intros Hnd Hi Hj. f_equal. by eapply IH.
Qed.

Lemma Post_done c i w : timers w !! i = None → Post c i w w.
Proof.
  intros E.
  assert (Hno : ∀ k l t, ¬ target c i w k l t).
  { intros k l t (j & Hj & Hs & _). apply lookup_ge_None in E.
    apply lookup_lt_Some in Hs. lia. }
  split; try done.
  intros k l t Ht. by apply Hno in Ht.
Qed.

(** The targets are the same from slot [i] and from slot [i + 1]. *)
Lemma Post_same_targets c i w w' :
  (∀ k l t, target c i w k l t → target c (S i) w k l t) →
  Post c (S i) w w' → Post c i w w'.
Proof.
  intros Hsame [P1 P2 P3 P4 P5 P6 P7]. split; try done.
  - intros k l t Ht. apply P5. by apply Hsame.
  - intros l t Hl Hno. apply P6; [done|].
    intros k (j & Hj & Hrest). apply (Hno k). exists j. split; [lia|done].
  - intros k Hno. apply P7.
    intros l t (j & Hj & Hrest). apply (Hno l t). exists j. split; [lia|done].
Qed.

Lemma Post_skip_empty c i w w' :
  timers w !! i = Some None → Post c (S i) w w' → Post c i w w'.
Proof.
  intros E. apply Post_same_targets.
  intros k l t (j & Hj & Hs & Hrest). exists j. split; [|done].
  destruct (decide (j = i)) as [->|]; [congruence|lia].
Qed.

Lemma Post_skip_other c i k l t w w' :
  timers w !! i = Some (Some (k, l)) → heap w !! l = Some t →
  conversation_id t ≠ c → Post c (S i) w w' → Post c i w w'.
Proof.
  intros E Hl Hc. apply Post_same_targets.
  intros k0 l0 t0 (j & Hj & Hs & Hl0 & Hc0). exists j. split; [|done].
  destruct (decide (j = i)) as [->|]; [|lia].
  rewrite E in Hs. simplify_eq.
Qed.

Lemma Post_stop c i k l t w w' :
  Inv w → timers w !! i = Some (Some (k, l)) → heap w !! l = Some t →
  conversation_id t = c →
  Post c (S i) (after_stop l t w) w' → Post c i w w'.
Proof.
  intros HI E Hl Hc [P1 P2 P3 P4 P5 P6 P7].
  pose proof (inv_wf w HI) as Hwf.
  assert (Hg : JSMap.get k (timers w) = Some l) by by eapply lookup_get.
  destruct (inv_active w HI _ _ Hg) as (t0 & Ht0 & Hkey & Hns).
  assert (t0 = t) as -> by congruence. clear Ht0.
  assert (Hlt : (l < length (heap w))%nat) by by eapply lookup_lt_Some.
  (* the slots and cells the rest of the loop reads *)
  assert (Hslot : ∀ j, (S i ≤ j)%nat →
            timers (after_stop l t w) !! j = timers w !! j).
  { intros j Hj. cbn. rewrite Hkey, (delete_lookup i k l) by done.
    apply list_lookup_insert_ne. lia. }
  assert (Hcell : ∀ l0, l0 ≠ l → (l0 < length (heap w))%nat →
            heap (after_stop l t w) !! l0 = heap w !! l0).
  { intros l0 Hne Hl0. cbn. rewrite lookup_app_l by by rewrite length_insert.
    by apply list_lookup_insert_ne. }
  assert (Hother : ∀ j k0 l0, (S i ≤ j)%nat →
            timers w !! j = Some (Some (k0, l0)) →
            k0 ≠ k ∧ l0 ≠ l ∧ (l0 < length (heap w))%nat).
  { intros j k0 l0 Hj Hs.
    assert (Hg0 : JSMap.get k0 (timers w) = Some l0) by by eapply lookup_get.
    destruct (inv_active w HI _ _ Hg0) as (t1 & Ht1 & Hk1 & _).
    assert (k0 ≠ k).
    { intros ->. assert (i = j) by by eapply wf_slot_unique. lia. }
    split_and!; [done| |by eapply lookup_lt_Some].
    intros ->. congruence. }
  assert (Hback : ∀ k0 l0 t0, target c (S i) (after_stop l t w) k0 l0 t0 →
            target c i w k0 l0 t0 ∧ k0 ≠ k ∧ l0 ≠ l).
  { intros k0 l0 t0 (j & Hj & Hs & Hl0 & Hc0).
    rewrite Hslot in Hs by done.
    destruct (Hother _ _ _ Hj Hs) as (Hk0 & Hne & Hl0lt).
    rewrite Hcell in Hl0 by done.
    split; [|done]. exists j. split; [lia|done]. }
  assert (Hfwd : ∀ j k0 l0 t0, (S i ≤ j)%nat →
            timers w !! j = Some (Some (k0, l0)) → heap w !! l0 = Some t0 →
            conversation_id t0 = c →
            target c (S i) (after_stop l t w) k0 l0 t0).
  { intros j k0 l0 t0 Hj Hs Hl0 Hc0.
    destruct (Hother _ _ _ Hj Hs) as (Hk0 & Hne & Hl0lt).
    exists j. rewrite Hslot, Hcell by done. done. }
  split.
  - by rewrite P1.
  - by rewrite P2.
  - destruct P3 as [-> ->]. done.
  - etrans; [|exact P4]. cbn. rewrite length_app, length_insert. lia.
  - intros k0 l0 t0 (j & Hj & Hs & Hl0 & Hc0).
    destruct (decide (j = i)) as [->|Hne].
    + rewrite E in Hs. simplify_eq.
      destruct (P7 (timerKey t)) as [Hg1 Hg2].
      { intros l1 t1 Ht. apply Hback in Ht. naive_solver. }
      split_and!.
      * rewrite Hg1. cbn. by apply get_delete_eq.
      * apply P6.
        -- cbn. rewrite lookup_app_l by by rewrite length_insert.
           by apply list_lookup_insert_eq.
        -- intros k1 Ht. apply Hback in Ht. naive_solver.
      * exists (length (heap w)). split_and!; [|done|].
        -- rewrite Hg2. cbn. by rewrite get_set_eq.
        -- apply P6.
           ++ cbn. rewrite lookup_app_r by by rewrite length_insert.
              by rewrite length_insert, Nat.sub_diag.
           ++ intros k1 Ht. apply Hback in Ht as [(j & _ & Hs & _) _].
              assert (Hg0 : JSMap.get k1 (timers w) = Some (length (heap w)))
                by by eapply lookup_get.
              destruct (inv_active w HI _ _ Hg0) as (t1 & Ht1 & _).
              apply lookup_lt_Some in Ht1. lia.
    + assert (Hj' : (S i ≤ j)%nat) by lia.
      destruct (Hother _ _ _ Hj' Hs) as (Hk0 & Hne0 & Hl0lt).
      destruct (P5 k0 l0 t0) as (F1 & F2 & l' & F3 & F4 & F5);
        [by eapply Hfwd|].
      split_and!; [done|done|]. exists l'. split_and!; [|..|done].
      * rewrite F3. cbn. rewrite get_set_ne; [done|]. by rewrite Hkey.
      * etrans; [|exact F4]. cbn. rewrite length_app, length_insert. lia.
  - intros l0 t0 Hl0 Hno.
    assert (l0 ≠ l).
    { intros ->. apply (Hno k). exists i. assert (t0 = t) by congruence.
      subst. done. }
    apply P6.
    + rewrite Hcell; [done|done|by eapply lookup_lt_Some].
    + intros k0 Ht. apply Hback in Ht as [Ht _]. by apply (Hno k0).
  - intros k0 Hno.
    assert (k0 ≠ k).
    { intros ->. by apply (Hno l t); exists i. }
    destruct (P7 k0) as [Hg1 Hg2].
    { intros l0 t0 Ht. apply Hback in Ht as [Ht _]. by apply (Hno l0 t0). }
    rewrite Hg1, Hg2. cbn. rewrite Hkey.
    by rewrite get_delete_ne, get_set_ne.
Qed.

Lemma stop_if_conversation_run c k l t w :
  heap w !! l = Some t →
  stop_if_conversation c k l w =
    Some (tt, if String.eqb (conversation_id t) c then after_stop l t w else w).
Proof.
  intros Ht. unfold stop_if_conversation, bind. rewrite (load_run _ _ _ Ht).
  destruct (String.eqb (conversation_id t) c); [by apply stopTimer_run|done].
Qed.

Lemma close_loop c fuel : ∀ i w,
  Inv w → (length (timers w) ≤ i + fuel)%nat →
  ∃ w', for_of_timers fuel i (stop_if_conversation c) w = Some (tt, w') ∧
        Inv w' ∧ Post c i w w'.
Proof.
  induction fuel as [|fuel IH]; intros i w HI Hlen; simpl.
  - destruct (timers w !! i) as [e|] eqn:E.
    + apply lookup_lt_Some in E. lia.
    + exists w. split_and!; [done|done|by apply Post_done].
  - destruct (timers w !! i) as [[[k l]|]|] eqn:E.
    + assert (Hg : JSMap.get k (timers w) = Some l)
        by (eapply lookup_get; [apply HI|done]).
      destruct (inv_active w HI _ _ Hg) as (t & Ht & Hkey & Hns).
      unfold bind. rewrite (stop_if_conversation_run _ _ _ _ _ Ht).
      destruct (String.eqb_spec (conversation_id t) c) as [Hc|Hc].
      * destruct (IH (S i) (after_stop l t w)) as (w' & Hrun & HI' & HP).
        { apply Inv_after_stop; [done| |done]. by rewrite Hkey. }
        { cbn. rewrite length_delete. lia. }
        exists w'. split_and!; [done|done|]. by eapply Post_stop.
      * destruct (IH (S i) w) as (w' & Hrun & HI' & HP); [done|lia|].
        exists w'. split_and!; [done|done|]. by eapply Post_skip_other.
    + destruct (IH (S i) w) as (w' & Hrun & HI' & HP); [done|lia|].
      exists w'. split_and!; [done|done|]. by eapply Post_skip_empty.
    + exists w. split_and!; [done|done|by apply Post_done].
Qed.

(** ** Every request is served and keeps the invariant *)

Lemma status_cases (s : Status) : s ≠ stopped → s = running ∨ s = paused.
Proof. destruct s; auto. by intros []. Qed.

Lemma startTimer_Inv a c w :
  Inv w → ∃ r w', startTimer a c w = Some (r, w') ∧ Inv w'.
Proof.
  intros HI. pose proof (Inv_history_in_heap w HI) as Hh.
  destruct (JSMap.get (key a c) (timers w)) as [l|] eqn:Hk.
  - destruct (inv_active w HI _ _ Hk) as (t & Ht & Hkey & Hns).
    destruct (status_cases _ Hns) as [Hs|Hs].
    + destruct (startTimer_running a c l t w) as [r Hr]; try done.
      by exists r, w.
    + destruct (startTimer_paused a c l t w) as [r Hr]; try done.
      eexists r, _. split; [done|].
      apply (Inv_update l t); try done. by rewrite Hkey.
  - destruct (startTimer_absent a c w) as [r Hr]; try done.
    eexists r, _. split; [done|]. by apply Inv_after_create.
Qed.

Lemma initialize_logic_Inv body w :
  Inv w → ∃ r w', initialize_logic body w = Some (r, w') ∧ Inv w'.
Proof.
  intros HI. unfold initialize_logic.
  destruct (context body) as [ctx|]; [|by eexists _, w].
  destruct (negb _); [by eexists _, w|].
  destruct (_ || _); [by eexists _, w|].
  by apply startTimer_Inv.
Qed.

Lemma pause_Inv a c w :
  Inv w → ∃ w', pause a c w = Some (mkTimerResponse 200 true, w') ∧ Inv w'.
Proof.
  intros HI. destruct (JSMap.get (key a c) (timers w)) as [l|] eqn:Hk.
  - destruct (inv_active w HI _ _ Hk) as (t & Ht & Hkey & Hns).
    destruct (status_cases _ Hns) as [Hs|Hs].
    + eexists. split; [by eapply pause_running|].
      apply (Inv_update l t); try done. by rewrite Hkey.
    + exists w. split; [|done]. eapply pause_not_running; try done. congruence.
  - exists w. split; [by apply pause_absent|done].
Qed.

Lemma resume_Inv a c w :
  Inv w → ∃ w', resume a c w = Some (mkTimerResponse 200 true, w') ∧ Inv w'.
Proof.
  intros HI. destruct (JSMap.get (key a c) (timers w)) as [l|] eqn:Hk.
  - destruct (inv_active w HI _ _ Hk) as (t & Ht & Hkey & Hns).
    destruct (status_cases _ Hns) as [Hs|Hs].
    + exists w. split; [|done]. eapply resume_not_paused; try done. congruence.
    + eexists. split; [by eapply resume_paused|].
      apply (Inv_update l t); try done. by rewrite Hkey.
  - exists w. split; [by apply resume_absent|done].
Qed.

Lemma close_conversation_Inv c w :
  Inv w →
  ∃ w', close_conversation c w = Some (tt, w') ∧ Inv w' ∧ Post c 0 w w'.
Proof. intros HI. unfold close_conversation. apply close_loop; [done|lia]. Qed.

Lemma webhook_Inv q w :
  Inv w → ∃ r w', webhook q w = Some (r, w') ∧ Inv w'.
Proof.
  intros HI. unfold webhook.
  destruct (verifyIntercomSignature _) as [[]|]; try by eexists _, w.
  unfold bind. destruct (String.eqb _ _); [|by eexists _, w].
  destruct (close_conversation_Inv (data_item_id q) w HI) as (w' & -> & HI' & _).
  by eexists _, w'.
Qed.

Lemma collect_sessions_elem a (hist : jsmap (list loc)) l :
  l ∈ collect_sessions a hist →
  ∃ k h, (k, h) ∈ JSMap.entries hist ∧ l ∈ h.
Proof.
  unfold collect_sessions. rewrite list_elem_of_In, in_flat_map.
  intros ([k h] & Hin & Hl). simpl in Hl.
  destruct (String.prefix _ _); [|done].
  exists k, h. by rewrite !list_elem_of_In.
Qed.

Lemma analytics_run a w :
  history_in_heap w → ∃ r, analytics a w = Some (r, w).
Proof.
  intros Hh. unfold analytics.
  destruct (_ =? _)%nat; [by eexists|].
  destruct (mapM_load_run (collect_sessions a (conversationHistory w)) w)
    as [ts Hts].
  { intros l Hl. apply collect_sessions_elem in Hl as (k & h & Hin & Hl).
    by eapply Hh. }
  unfold bind. rewrite Hts. by eexists.
Qed.

Lemma handle_Inv req w :
  Inv w → ∃ r w', handle req w = Some (r, w') ∧ Inv w'.
Proof.
  intros HI. destruct req as [body|a c|a c|q|a]; unfold handle, bind.
  - destruct (initialize_logic_Inv body w HI) as (r & w' & -> & HI').
    by eexists _, w'.
  - destruct (pause_Inv a c w HI) as (w' & -> & HI'). by eexists _, w'.
  - destruct (resume_Inv a c w HI) as (w' & -> & HI'). by eexists _, w'.
  - destruct (webhook_Inv q w HI) as (r & w' & -> & HI'). by eexists _, w'.
  - destruct (analytics_run a w (Inv_history_in_heap w HI)) as (r & ->).
    by eexists _, w.
Qed.

Lemma reachable_Inv w : reachable w → Inv w.
Proof.
  induction 1 as [now uuids|w req r w' _ IH Hrun|w now _ IH].
  - apply Inv_initial.
  - destruct (handle_Inv req w IH) as (r0 & w0 & Hrun0 & HI0). congruence.
  - by apply Inv_with_clock.
Qed.

(** * The properties of the specification *)

Lemma world_running_reachable : reachable world_running.
Proof.
  eapply (reach_request _ (req_initialize (demo_body "A" "C")));
    [apply reach_init|reflexivity].
Defined.

(** ** C8: a second [start] on a running timer *)

(** C8. [start] is idempotent while the timer is running: when the key
    of [(a, c)] holds a timer whose status is [running], [startTimer]
    returns and leaves the whole world as it was (no new session id, no
    change of [total_elapsed], [start_time] or [last_update]); a
    following [pause] at clock [now] therefore accounts the interval
    since [last_update] once. *)
Theorem start_idempotent_while_running a c l t w :
  reachable w →
  JSMap.get (key a c) (timers w) = Some l → heap w !! l = Some t →
  status t = running →
  ∃ r, startTimer a c w = Some (r, w) ∧
       ∀ now, ∃ w', pause a c (with_clock now w) = Some (mkTimerResponse 200 true, w') ∧
                    ∃ t', heap w' !! l = Some t' ∧
                          total_elapsed t' = total_elapsed t + (now - last_update t) ∧
                          session_id t' = session_id t ∧ start_time t' = start_time t.
Proof.
  intros Hr Hk Hl Hs. apply reachable_Inv in Hr.
  destruct (startTimer_running a c l t w) as [r Hrun];
    [done|done|done|by apply Inv_history_in_heap|].
  exists r. split; [done|]. intros now.
  eexists. split; [by apply (pause_running a c l t)|].
  exists (paused_timer now t). cbn. split; [|done].
  by eapply heap_insert_lookup.
Qed.

Lemma start_idempotent_while_running_witness :
  ∃ r, startTimer "A" "C" world_running = Some (r, world_running) ∧
       ∀ now, ∃ w', pause "A" "C" (with_clock now world_running)
                      = Some (mkTimerResponse 200 true, w') ∧
                    ∃ t', heap w' !! 0%nat = Some t' ∧
                          total_elapsed t' = 0 + (now - 0) ∧
                          session_id t' = "0" ∧ start_time t' = 0.
Proof.
  apply (start_idempotent_while_running "A" "C" 0%nat
           (new_timer "A" "C" (initial_world 0 demo_uuids)) world_running);
    [apply world_running_reachable|reflexivity|reflexivity|reflexivity].
Defined.

(** ** C4: [pause] and [resume] without a matching timer *)

(** C4 as stated fails: the handlers have no [NotFound] outcome. On a
    key without a timer [pause] and [resume] answer with status 200
    and [{ success: true }], the very response they give when they
    pause or resume a timer. *)
Lemma pause_resume_no_not_found_outcome :
  pause "A" "C" (initial_world 0 demo_uuids)
    = Some (mkTimerResponse 200 true, initial_world 0 demo_uuids) ∧
  resume "A" "C" (initial_world 0 demo_uuids)
    = Some (mkTimerResponse 200 true, initial_world 0 demo_uuids) ∧
  fst <$> pause "A" "C" world_running
    = fst <$> pause "A" "C" (initial_world 0 demo_uuids) ∧
  (heap <$> (snd <$> pause "A" "C" (with_clock 7 world_running)))
    ≠ Some (heap world_running).
Proof. split_and!; [reflexivity..|]. vm_compute. congruence. Qed.

(** C4 (amended). With no timer under the key of [(a, c)], or with a
    timer that is not [running] (for [pause]) or not [paused] (for
    [resume]), the handler answers [{ success: true }] and leaves the
    whole world, both stores included, as it was. *)
Theorem pause_resume_without_timer_unchanged a c w :
  (no_timer_in running a c w →
   pause a c w = Some (mkTimerResponse 200 true, w)) ∧
  (no_timer_in paused a c w →
   resume a c w = Some (mkTimerResponse 200 true, w)).
Proof.
  split; intros [H|(l & t & Hk & Hl & Hs)];
    eauto using pause_absent, resume_absent, pause_not_running, resume_not_paused.
Qed.

Lemma pause_resume_without_timer_unchanged_witness :
  pause "B" "C" world_running = Some (mkTimerResponse 200 true, world_running) ∧
  resume "A" "C" world_running = Some (mkTimerResponse 200 true, world_running).
Proof.
  split.
  - apply (pause_resume_without_timer_unchanged "B" "C" world_running).
    left. reflexivity.
  - apply (pause_resume_without_timer_unchanged "A" "C" world_running).
    right. exists 0%nat, (new_timer "A" "C" (initial_world 0 demo_uuids)).
    split_and!; [reflexivity|reflexivity|discriminate].
Defined.

(** ** C9: the history record is a copy *)

(** C9. [stopTimer] appends to the history a new object, at a location
    different from the timer's: whatever is assigned to the fields of
    the live timer afterwards (any [f]), the record read through the
    history list is still the timer as it was stopped. *)
Theorem stop_copies_timer l t w :
  heap w !! l = Some t →
  ∃ w' l',
    stopTimer l w = Some (tt, w') ∧
    last <$> JSMap.get (timerKey t) (conversationHistory w') = Some (Some l') ∧
    l' ≠ l ∧
    heap w' !! l' = Some (stopped_timer (clock w) t) ∧
    ∀ f : Timer → Timer,
      ∃ w'', assign l f w' = Some (tt, w'') ∧
             heap w'' !! l = Some (f (stopped_timer (clock w) t)) ∧
             heap w'' !! l' = Some (stopped_timer (clock w) t) ∧
             conversationHistory w'' = conversationHistory w'.
Proof.
  intros Hl.
  assert (Hlt : (l < length (heap w))%nat) by by eapply lookup_lt_Some.
  exists (after_stop l t w), (length (heap w)).
  assert (Hl1 : heap (after_stop l t w) !! l = Some (stopped_timer (clock w) t)).
  { cbn. rewrite lookup_app_l by by rewrite length_insert.
    by apply list_lookup_insert_eq. }
  assert (Hl2 : heap (after_stop l t w) !! length (heap w)
                = Some (stopped_timer (clock w) t)).
  { cbn. rewrite lookup_app_r by by rewrite length_insert.
    by rewrite length_insert, Nat.sub_diag. }
  split_and!.
  - by apply stopTimer_run.
  - cbn. rewrite get_set_eq. cbn. by rewrite last_snoc.
  - lia.
  - done.
  - intros f. eexists. split; [by apply assign_run|]. split_and!.
    + cbn. apply list_lookup_insert_eq.
      rewrite length_app, length_insert. lia.
    + cbn. rewrite list_lookup_insert_ne by lia.
      rewrite lookup_app_r by by rewrite length_insert.
      by rewrite length_insert, Nat.sub_diag.
    + done.
Qed.

Lemma stop_copies_timer_witness :
  ∃ w' l',
    stopTimer 0%nat world_running = Some (tt, w') ∧
    last <$> JSMap.get "A_C" (conversationHistory w') = Some (Some l') ∧
    l' ≠ 0%nat ∧
    heap w' !! l' = Some (mkTimer "A" "C" "0" 0 0 stopped 0 (Some 0) (Some 0)) ∧
    ∀ f : Timer → Timer,
      ∃ w'', assign 0%nat f w' = Some (tt, w'') ∧
             heap w'' !! 0%nat
               = Some (f (mkTimer "A" "C" "0" 0 0 stopped 0 (Some 0) (Some 0))) ∧
             heap w'' !! l'
               = Some (mkTimer "A" "C" "0" 0 0 stopped 0 (Some 0) (Some 0)) ∧
             conversationHistory w'' = conversationHistory w'.
Proof.
  apply (stop_copies_timer 0%nat
           (new_timer "A" "C" (initial_world 0 demo_uuids)) world_running).
  reflexivity.
Defined.

(** ** C2: the active store holds exactly the timers that are not stopped *)





(** ** C3: the "conversation closed" event *)

Lemma webhook_closed_run c w w' :
  close_conversation c w = Some (tt, w') →
  webhook (closed_event c) w = Some (received_200, w').
Proof. intros H. unfold webhook, closed_event, bind. cbn. by rewrite H. Qed.

(** C3. In every state of the server the webhook, on a "conversation
    closed" event for [c] with a valid signature, answers 200 and, for
    every entry [k ↦ l] of the active store: when the timer is on
    conversation [c] it is stopped once ([k] is gone from the active
    store, the object is the stopped timer, and exactly one record, a
    copy of it, has been appended to the history of [k]); when it is
    on another conversation, its entry, its object and the history of
    its key are as before. *)
Theorem close_stops_every_matching_timer c w :
  reachable w →
  ∃ w',
    webhook (closed_event c) w = Some (received_200, w') ∧
    ∀ k l t, JSMap.get k (timers w) = Some l → heap w !! l = Some t →
      (conversation_id t = c → finalized k l t w w') ∧
      (conversation_id t ≠ c →
         JSMap.get k (timers w') = Some l ∧ heap w' !! l = Some t ∧
         JSMap.get k (conversationHistory w') = JSMap.get k (conversationHistory w)).
Proof.
  intros Hr. pose proof (reachable_Inv w Hr) as HI.
  destruct (close_conversation_Inv c w HI) as (w' & Hrun & HI' & HP).
  exists w'. split.
  { by apply webhook_closed_run. }
  intros k l t Hg Hl. destruct (get_lookup _ _ _ Hg) as [j Hj]. split.
  - intros Hc. apply (post_targets _ _ _ _ HP). exists j.
    split_and!; [lia|done..].
  - intros Hc.
    destruct (post_keys _ _ _ _ HP k) as [Hg1 Hg2].
    { intros l0 t0 (j0 & _ & Hj0 & Hl0 & Hc0).
      assert (JSMap.get k (timers w) = Some l0)
        by (eapply lookup_get; [apply HI|done]).
      congruence. }
    split_and!; [congruence| |done].
    apply (post_heap _ _ _ _ HP); [done|].
    intros k0 (j0 & _ & _ & Hl0 & Hc0). congruence.
Qed.

Lemma world_three_reachable : reachable world_three.
Proof.
  eapply (reach_request (after_create "A" "D" world_running)
            (req_initialize (demo_body "B" "C"))); [|reflexivity].
  eapply (reach_request world_running (req_initialize (demo_body "A" "D")));
    [|reflexivity].
  apply world_running_reachable.
Defined.

Lemma close_stops_every_matching_timer_witness :
  ∃ w',
    webhook (closed_event "C") world_three = Some (received_200, w') ∧
    ∀ k l t, JSMap.get k (timers world_three) = Some l →
             heap world_three !! l = Some t →
      (conversation_id t = "C" → finalized k l t world_three w') ∧
      (conversation_id t ≠ "C" →
         JSMap.get k (timers w') = Some l ∧ heap w' !! l = Some t ∧
         JSMap.get k (conversationHistory w')
           = JSMap.get k (conversationHistory world_three)).
Proof.
  apply (close_stops_every_matching_timer "C" world_three),
    world_three_reachable.
Defined.

(** The same event, evaluated: both timers on ["C"] are stopped, the
    slots of their entries are empty, the timer on ["D"] is in place. *)
Example close_three_evaluated :
  (λ w', (timers w', conversationHistory w', status <$> heap w')) <$>
    (snd <$> webhook (closed_event "C") (with_clock 5000 world_three))
  = Some ([None; Some ("A_D", 1%nat); None],
          [Some ("A_C", [3%nat]); Some ("B_C", [4%nat])],
          [stopped; running; stopped; stopped; stopped]).
Proof. reflexivity. Qed.

(** ** C1: the duration of a start, pause, resume, stop sequence *)

(** C1. From a state of the server without a timer under the key of
    [(a, c)]: start at clock [t0], pause at [t1], resume at [t2] and
    the closing of the conversation at [t3] are all served; after the
    pause the [total_elapsed] of the timer is [t1 - t0]; after the
    stop the [final_duration] of the timer, and of the record appended
    last to the history of the key, is [(t1 - t0) + (t3 - t2)]. (The
    order of the four readings plays no part.) *)
Theorem start_pause_resume_stop_duration a c t0 t1 t2 t3 w :
  reachable w → JSMap.get (key a c) (timers w) = None →
  ∃ r0 w1 w2 w3 w4 l l',
    startTimer a c (with_clock t0 w) = Some (r0, w1) ∧
    pause a c (with_clock t1 w1) = Some (mkTimerResponse 200 true, w2) ∧
    JSMap.get (key a c) (timers w2) = Some l ∧
    total_elapsed <$> heap w2 !! l = Some (t1 - t0) ∧
    resume a c (with_clock t2 w2) = Some (mkTimerResponse 200 true, w3) ∧
    webhook (closed_event c) (with_clock t3 w3) = Some (received_200, w4) ∧
    heap w4 !! l ≫= final_duration = Some ((t1 - t0) + (t3 - t2)) ∧
    last <$> JSMap.get (key a c) (conversationHistory w4) = Some (Some l') ∧
    heap w4 !! l' ≫= final_duration = Some ((t1 - t0) + (t3 - t2)).
Proof.
  intros Hr Hk.
  assert (Hr0 : reachable (with_clock t0 w)) by by apply reach_clock.
  pose proof (reachable_Inv _ Hr0) as HI0.
  destruct (startTimer_absent a c (with_clock t0 w)) as [r0 Hrun0];
    [done|by apply Inv_history_in_heap|].
  set (w1 := after_create a c (with_clock t0 w)) in *.
  set (l := length (heap w)).
  set (tm0 := new_timer a c (with_clock t0 w)).
  assert (HI1 : Inv (with_clock t1 w1))
    by by apply Inv_with_clock, Inv_after_create.
  assert (Hg1 : JSMap.get (key a c) (timers (with_clock t1 w1)) = Some l)
    by (cbn; apply get_set_eq).
  assert (Hl1 : heap (with_clock t1 w1) !! l = Some tm0).
  { cbn. by rewrite lookup_app_r, Nat.sub_diag by lia. }
  pose proof (pause_running a c l tm0 _ Hg1 Hl1 eq_refl) as Hrun1.
  set (tm1 := paused_timer (clock (with_clock t1 w1)) tm0) in *.
  set (w2 := with_heap (<[l := tm1]> (heap (with_clock t1 w1))) (with_clock t1 w1)) in *.
  assert (Hl2 : heap w2 !! l = Some tm1) by by eapply heap_insert_lookup.
  assert (HI2 : Inv (with_clock t2 w2)).
  { apply Inv_with_clock. by apply (Inv_update l tm0). }
  pose proof (resume_paused a c l tm1 (with_clock t2 w2) Hg1 Hl2 eq_refl) as Hrun2.
  set (tm2 := resumed_timer (clock (with_clock t2 w2)) tm1) in *.
  set (w3 := with_heap (<[l := tm2]> (heap (with_clock t2 w2))) (with_clock t2 w2)) in *.
  assert (Hl3 : heap (with_clock t3 w3) !! l = Some tm2)
    by by eapply heap_insert_lookup.
  assert (HI3 : Inv (with_clock t3 w3)).
  { apply Inv_with_clock. by apply (Inv_update l tm1). }
  destruct (close_conversation_Inv c _ HI3) as (w4 & Hrun3 & HI4 & HP).
  destruct (get_lookup _ _ _ Hg1) as [j Hj].
  destruct (post_targets _ _ _ _ HP (key a c) l tm2)
    as (_ & F2 & l' & F3 & _ & F5).
  { exists j. split_and!; [lia|done..]. }
  exists r0, w1, w2, w3, w4, l, l'. split_and!; try done.
  - by rewrite Hl2.
  - by apply webhook_closed_run.
  - rewrite F2. cbn. f_equal; lia.
  - rewrite F3. cbn. by rewrite last_snoc.
  - rewrite F5. cbn. f_equal; lia.
Qed.

Lemma start_pause_resume_stop_duration_witness :
  ∃ r0 w1 w2 w3 w4 l l',
    startTimer "A" "C" (with_clock 0 (initial_world 0 demo_uuids)) = Some (r0, w1) ∧
    pause "A" "C" (with_clock 10000 w1) = Some (mkTimerResponse 200 true, w2) ∧
    JSMap.get (key "A" "C") (timers w2) = Some l ∧
    total_elapsed <$> heap w2 !! l = Some 10000 ∧
    resume "A" "C" (with_clock 15000 w2) = Some (mkTimerResponse 200 true, w3) ∧
    webhook (closed_event "C") (with_clock 25000 w3) = Some (received_200, w4) ∧
    heap w4 !! l ≫= final_duration = Some 20000 ∧
    last <$> JSMap.get (key "A" "C") (conversationHistory w4) = Some (Some l') ∧
    heap w4 !! l' ≫= final_duration = Some 20000.
Proof.
  apply (start_pause_resume_stop_duration "A" "C" 0 10000 15000 25000
           (initial_world 0 demo_uuids));
    [apply reach_init|reflexivity].
Defined.

(** ** C5: stopping again *)

(** A second event for a conversation whose timers are all gone. *)
Lemma close_loop_noop c fuel : ∀ i w,
  (∀ j k l, (i ≤ j)%nat → timers w !! j = Some (Some (k, l)) →
            ∃ t, heap w !! l = Some t ∧ conversation_id t ≠ c) →
  (length (timers w) ≤ i + fuel)%nat →
  for_of_timers fuel i (stop_if_conversation c) w = Some (tt, w).
Proof.
  induction fuel as [|fuel IH]; intros i w Hno Hlen; simpl.
  - destruct (timers w !! i) as [e|] eqn:E; [|done].
    apply lookup_lt_Some in E. lia.
  - destruct (timers w !! i) as [[[k l]|]|] eqn:E; [| |done].
    + destruct (Hno i k l) as (t & Ht & Hc); [lia|done|].
      unfold bind. rewrite (stop_if_conversation_run _ _ _ _ _ Ht).
      apply String.eqb_neq in Hc as ->.
      apply IH; [|lia]. intros j k0 l0 Hj. apply Hno. lia.
    + apply IH; [|lia]. intros j k0 l0 Hj. apply Hno. lia.
Qed.

Lemma after_close_no_match c w w' :
  Inv w → Inv w' → Post c 0 w w' →
  ∀ j k l, timers w' !! j = Some (Some (k, l)) →
           ∃ t, heap w' !! l = Some t ∧ conversation_id t ≠ c.
Proof.
  intros HI HI' HP j k l Hj.
  assert (Hg' : JSMap.get k (timers w') = Some l)
    by (eapply lookup_get; [apply HI'|done]).
  destruct (JSMap.get k (timers w)) as [l0|] eqn:Hg.
  - destruct (inv_active w HI _ _ Hg) as (t0 & Ht0 & Hkey & _).
    destruct (get_lookup _ _ _ Hg) as [j0 Hj0].
    destruct (decide (conversation_id t0 = c)) as [Hc|Hc].
    + destruct (post_targets _ _ _ _ HP k l0 t0) as (Hnone & _).
      { exists j0. split_and!; [lia|done..]. }
      congruence.
    + assert (Hnot : ∀ l1 t1, ¬ target c 0 w k l1 t1).
      { intros l1 t1 (j1 & _ & Hj1 & Hl1 & Hc1).
        assert (JSMap.get k (timers w) = Some l1)
          by (eapply lookup_get; [apply HI|done]).
        congruence. }
      destruct (post_keys _ _ _ _ HP k Hnot) as [Hsame _].
      assert (l = l0) as -> by congruence.
      exists t0. split; [|done].
      apply (post_heap _ _ _ _ HP); [done|].
      intros k0 (j1 & _ & _ & Hl1 & Hc1). congruence.
  - assert (Hnot : ∀ l1 t1, ¬ target c 0 w k l1 t1).
    { intros l1 t1 (j1 & _ & Hj1 & _).
      assert (JSMap.get k (timers w) = Some l1)
        by (eapply lookup_get; [apply HI|done]).
      congruence. }
    destruct (post_keys _ _ _ _ HP k Hnot) as [Hsame _]. congruence.
Qed.

Lemma webhook_closed_inv c w w' :
  webhook (closed_event c) w = Some (received_200, w') →
  close_conversation c w = Some (tt, w').
Proof.
  unfold webhook, closed_event, bind. cbn.
  destruct (close_conversation c w) as [[[] w0]|]; [|done].
  unfold ret. intros H. by simplify_eq.
Qed.

(** C5 as stated fails: [stopTimer] has no guard. Called on a stopped
    timer (here at clock 5, the timer having been stopped at clock 0)
    it assigns [end_time] again and appends a second record to the
    history. *)
Lemma stop_again_is_not_a_no_op :
  status <$> heap world_stopped !! 0%nat = Some stopped ∧
  heap world_stopped !! 0%nat ≫= end_time = Some 0 ∧
  JSMap.get "A_C" (conversationHistory world_stopped) = Some [1%nat] ∧
  ∃ w', stopTimer 0 (with_clock 5 world_stopped) = Some (tt, w') ∧
        heap w' !! 0%nat ≫= end_time = Some 5 ∧
        JSMap.get "A_C" (conversationHistory w') = Some [1%nat; 2%nat].
Proof.
  split_and!; [reflexivity..|].
  eexists. split; [by apply stopTimer_run|]. split; reflexivity.
Qed.

(** C5 (amended). [stopTimer] on a timer that is already stopped
    leaves its status, its [total_elapsed] and its [final_duration] as
    they are. The server never calls it so: after a "conversation
    closed" event, the same event again, at any later clock reading,
    is answered 200 and changes nothing. *)
Theorem stop_again_keeps_duration_and_close_again_is_no_op :
  (∀ l t w,
     heap w !! l = Some t → status t = stopped →
     final_duration t = Some (total_elapsed t) →
     ∃ w' t', stopTimer l w = Some (tt, w') ∧ heap w' !! l = Some t' ∧
              status t' = stopped ∧ total_elapsed t' = total_elapsed t ∧
              final_duration t' = final_duration t) ∧
  (∀ c w w',
     reachable w →
     webhook (closed_event c) w = Some (received_200, w') →
     ∀ now, webhook (closed_event c) (with_clock now w')
            = Some (received_200, with_clock now w')).
Proof.
  split.
  - intros l t w Hl Hs Hfd.
    assert (Hlt : (l < length (heap w))%nat) by by eapply lookup_lt_Some.
    exists (after_stop l t w), (stopped_timer (clock w) t). split_and!.
    + by apply stopTimer_run.
    + cbn. rewrite lookup_app_l by by rewrite length_insert.
      by apply list_lookup_insert_eq.
    + done.
    + cbn. by rewrite Hs.
    + cbn. by rewrite Hs, Hfd.
  - intros c w w' Hr Hrun now. apply webhook_closed_inv in Hrun.
    pose proof (reachable_Inv w Hr) as HI.
    destruct (close_conversation_Inv c w HI) as (w0 & Hrun0 & HI' & HP).
    assert (w0 = w') as -> by congruence.
    apply webhook_closed_run. unfold close_conversation.
    apply close_loop_noop; [|lia].
    intros j k l _ Hj. by eapply (after_close_no_match c w w').
Qed.

Lemma stop_again_keeps_duration_and_close_again_is_no_op_witness :
  (∃ w' t', stopTimer 0 (with_clock 5 world_stopped) = Some (tt, w') ∧
            heap w' !! 0%nat = Some t' ∧
            status t' = stopped ∧ total_elapsed t' = 0 ∧
            final_duration t' = Some 0) ∧
  webhook (closed_event "C") (with_clock 5 world_three_closed)
    = Some (received_200, with_clock 5 world_three_closed).
Proof.
  split.
  - apply (proj1 stop_again_keeps_duration_and_close_again_is_no_op 0%nat
             (stopped_timer 0 (new_timer "A" "C" (initial_world 0 demo_uuids)))
             (with_clock 5 world_stopped)); reflexivity.
  - apply (proj2 stop_again_keeps_duration_and_close_again_is_no_op "C"
             world_three world_three_closed);
      [apply world_three_reachable|reflexivity].
Defined.

(** ** Analytics: what the handler computes *)

Lemma serve_reachable req w : reachable w → reachable (serve req w).
Proof.
  intros Hr. unfold serve. destruct (handle req w) as [[r w']|] eqn:E; [|done].
  by eapply reach_request.
Qed.

Lemma analytics_no_session a w :
  collect_sessions a (conversationHistory w) = [] →
  analytics a w = Some (mkAnalyticsResponse 0 0 (JsNum 0) (Some 0), w).
Proof. intros H. unfold analytics. by rewrite H. Qed.

Lemma sort_ascending_sorted l : Sorted Z.le (sort_ascending l).
Proof. apply (Sorted_merge_sort Z.le). Qed.

Lemma sort_ascending_perm l : sort_ascending l ≡ₚ l.
Proof. apply (merge_sort_Permutation Z.le). Qed.

Lemma fold_left_add l a : fold_left Z.add l a = a + foldr Z.add 0 l.
Proof.
  revert a. induction l as [|x l IH]; intros a; simpl; [lia|].
  rewrite IH. lia.
Qed.

Lemma foldr_add_perm (l l' : list Z) :
  l ≡ₚ l' → foldr Z.add 0 l = foldr Z.add 0 l'.
Proof. induction 1; simpl; lia. Qed.

Lemma filter_truthy_all (ss : list Timer) :
  Forall (λ s, truthy_duration s = true) ss →
  filter (λ s, truthy_duration s = true) ss = ss ∧
  length (omap final_duration ss) = length ss.
Proof.
  induction 1 as [|s ss Hs _ [IH1 IH2]]; [done|].
  rewrite filter_cons_True by done. rewrite IH1. split; [done|].
  unfold truthy_duration in Hs. cbn.
  destruct (final_duration s); [|done]. cbn. by rewrite IH2.
Qed.

(** What the handler computes from sessions that all have a non-zero
    [final_duration]: their number, the sum, the quotient, and the
    element at index [floor(n/2)] of the sorted durations. *)
Lemma statistics_all_nonzero (ss : list Timer) :
  Forall (λ s, truthy_duration s = true) ss →
  statistics ss =
    let ds := omap final_duration ss in
    mkAnalyticsResponse (length ss) (foldr Z.add 0 ds)
      (js_div (foldr Z.add 0 ds) (length ss))
      (if (0 <? length ss)%nat
       then sort_ascending ds !! (length ss / 2)%nat else Some 0).
Proof.
  intros Hall. destruct (filter_truthy_all ss Hall) as [Hf Hlen].
  unfold statistics. rewrite Hf. cbn zeta.
  assert (Hl : length (sort_ascending (omap final_duration ss)) = length ss).
  { by rewrite (Permutation_length (sort_ascending_perm _)). }
  rewrite Hl, fold_left_add, Z.add_0_l.
  by rewrite (foldr_add_perm _ _ (sort_ascending_perm _)).
Qed.

(** The examples of the specification. *)
Example statistics_three_sessions :
  statistics (map session_of [10000; 20000; 30000])
  = mkAnalyticsResponse 3 60000 (JsNum 20000) (Some 20000).
Proof. reflexivity. Qed.

Example statistics_upper_median :
  statistics (map session_of [30000; 10000])
  = mkAnalyticsResponse 2 40000 (JsNum 20000) (Some 30000).
Proof. reflexivity. Qed.

(** ** C6: sessions of zero duration *)

(** C6. The filter [s => s.final_duration] drops a stopped session
    whose [final_duration] is [0]: in a reachable state where the
    operator has one history record, with [final_duration] defined and
    equal to [0], the analytics count no session and the average is
    [0/0], that is [NaN]. *)
Theorem analytics_drops_zero_duration :
  reachable world_zero_session ∧
  (∃ l s,
     collect_sessions "test_admin_456" (conversationHistory world_zero_session) = [l] ∧
     heap world_zero_session !! l = Some s ∧
     status s = stopped ∧ final_duration s = Some 0) ∧
  analytics "test_admin_456" world_zero_session
    = Some (mkAnalyticsResponse 0 0 JsNaN (Some 0), world_zero_session).
Proof.
  split_and!.
  - do 2 apply serve_reachable. apply reach_init.
  - exists 1%nat, (mkTimer "test_admin_456" "test_conv_123" "0" 1000 0 stopped
                     1000 (Some 0) (Some 1000)).
    split_and!; reflexivity.
  - reflexivity.
Qed.

(** ** C7: total, average and median *)

(** C7. With stopped sessions of durations [0; 0; 10000] the handler
    computes on [10000] alone: one session, average 10000 and median
    10000, where the sum over the count of the three sessions is
    10000/3 and the element at index [floor(3/2)] of the sorted
    durations is 0. *)
Theorem analytics_statistics_ignore_zero_durations :
  reachable world_durations_0_0_10000 ∧
  (∃ objs,
     mapM load
       (collect_sessions "test_admin_456" (conversationHistory world_durations_0_0_10000))
       world_durations_0_0_10000 = Some (objs, world_durations_0_0_10000) ∧
     final_duration <$> objs = [Some 0; Some 0; Some 10000] ∧
     sort_ascending [0; 0; 10000] !! (3 / 2)%nat = Some 0 ∧
     js_div (0 + 0 + 10000) 3 = JsNum (10000 # 3)) ∧
  analytics "test_admin_456" world_durations_0_0_10000
    = Some (mkAnalyticsResponse 1 10000 (JsNum 10000) (Some 10000),
            world_durations_0_0_10000).
Proof.
  split_and!.
  - apply serve_reachable, reach_clock. do 5 apply serve_reachable. apply reach_init.
  - eexists. split_and!; [vm_compute; reflexivity|reflexivity..].
  - reflexivity.
Qed.

(** ** C10: keys of identifiers that contain an underscore *)

Lemma string_append_assoc (s1 s2 s3 : string) :
  ((s1 ++ s2) ++ s3 = s1 ++ (s2 ++ s3))%string.
Proof.
  induction s1 as [|ch s1 IH]; [done|].
  change (String ch ((s1 ++ s2) ++ s3) = String ch (s1 ++ s2 ++ s3))%string.
  by rewrite IH.
Qed.

Lemma prefix_append (s1 s2 : string) : String.prefix s1 (s1 ++ s2)%string = true.
Proof.
  induction s1 as [|ch s1 IH]; [by destruct s2|].
  change (String.prefix (String ch s1) (String ch (s1 ++ s2)%string) = true).
  simpl. destruct (Ascii.ascii_dec ch ch); [done|congruence].
Qed.

(** C10. The key is not injective and the prefix test of the analytics
    does not separate operators. For all identifiers, the pairs
    [(a, b_c)] and [(a_b, c)] have the same key, and every key of the
    operator [a_b] starts with the prefix that selects the keys of the
    operator [a]. On the pairs [("a", "b_c")] and [("a_b", "c")], which
    differ: a start for the second pair creates nothing when the first
    has a timer, a pause for the second pair pauses the timer of the
    first, and the analytics of operator ["a"] report the session of
    operator ["a_b"]. The same on the identifiers of
    [/test-initialize]: a pause for operator ["test"] pauses the timer
    of ["test_admin_456"], whose session the analytics of ["test"]
    report. *)
Theorem key_collisions_break_isolation :
  (∀ a b c : string,
     key a (b ++ "_" ++ c)%string = key (a ++ "_" ++ b)%string c) ∧
  (∀ a b c : string,
     String.prefix (a ++ "_")%string (key (a ++ "_" ++ b)%string c) = true) ∧
  ("a", "b_c") ≠ ("a_b", "c") ∧
  key "a" "b_c" = key "a_b" "c" ∧
  JSMap.entries (timers world_a_timer) = [("a_b_c", 0%nat)] ∧
  serve (req_initialize (demo_body "a_b" "c")) world_a_timer = world_a_timer ∧
  (λ t, (admin_id t, status t)) <$>
    heap (serve (req_pause "a_b" "c") world_a_timer) !! 0%nat
    = Some ("a", paused) ∧
  (admin_id <$> heap world_a_b_session) = ["a_b"; "a_b"] ∧
  analytics "a" world_a_b_session
    = Some (mkAnalyticsResponse 1 10000 (JsNum 10000) (Some 10000),
            world_a_b_session) ∧
  (λ t, (admin_id t, status t)) <$>
    heap (serve (req_pause "test" "admin_456_test_conv_123") world_test_timer) !! 0%nat
    = Some ("test_admin_456", paused) ∧
  (admin_id <$> heap world_test_session) = ["test_admin_456"; "test_admin_456"] ∧
  analytics "test" world_test_session
    = Some (mkAnalyticsResponse 1 10000 (JsNum 10000) (Some 10000),
            world_test_session).
Proof.
  split_and!; try reflexivity.
  - intros a b c. unfold key. by rewrite !string_append_assoc.
  - intros a b c. unfold key. rewrite !string_append_assoc.
    rewrite <- (string_append_assoc a "_"). apply prefix_append.
  - discriminate.
Qed.

(** * Further properties of the server *)

(** ** Requests as sequences of effects *)

Lemma effect_Inv w w' : Inv w → effect w w' → Inv w'.
Proof.
  intros HI He. destruct He as [a c w Hk|l t w Hk Hl Hs|l t w Hk Hl Hs|l t w Hk Hl].
  - by apply Inv_after_create.
  - by apply (Inv_update l t).
  - by apply (Inv_update l t).
  - by apply Inv_after_stop.
Qed.

Lemma effects_Inv w w' : Inv w → effects w w' → Inv w'.
Proof. intros HI He. induction He; eauto using effect_Inv. Qed.

Lemma effects_one w w' : effect w w' → effects w w'.
Proof. intros. eapply effects_cons; [done|apply effects_nil]. Qed.

Lemma close_loop_effects c fuel : ∀ i w w',
  Inv w → for_of_timers fuel i (stop_if_conversation c) w = Some (tt, w') →
  effects w w'.
Proof.
  induction fuel as [|fuel IH]; intros i w w' HI; simpl.
  - destruct (timers w !! i) as [e|]; [done|].
    intros H. simplify_eq. apply effects_nil.
  - destruct (timers w !! i) as [[[k l]|]|] eqn:E.
    + assert (Hg : JSMap.get k (timers w) = Some l)
        by (eapply lookup_get; [apply HI|done]).
      destruct (inv_active w HI _ _ Hg) as (t & Ht & Hkey & Hns).
      unfold bind. rewrite (stop_if_conversation_run _ _ _ _ _ Ht).
      destruct (String.eqb (conversation_id t) c).
      * intros Hrun. eapply effects_cons.
        -- apply (effect_stop l t); [by rewrite Hkey|done].
        -- eapply IH; [|done]. apply Inv_after_stop; [done| |done].
           by rewrite Hkey.
      * by apply IH.
    + by apply IH.
    + intros H. simplify_eq. apply effects_nil.
Qed.

Lemma startTimer_effects a c w r w' :
  Inv w → startTimer a c w = Some (r, w') → effects w w'.
Proof.
  intros HI Hrun. pose proof (Inv_history_in_heap w HI) as Hh.
  destruct (JSMap.get (key a c) (timers w)) as [l|] eqn:Hk.
  - destruct (inv_active w HI _ _ Hk) as (t & Ht & Hkey & Hns).
    destruct (status_cases _ Hns) as [Hs|Hs].
    + destruct (startTimer_running a c l t w) as [r0 Hr]; try done.
      assert (w' = w) as -> by congruence. apply effects_nil.
    + destruct (startTimer_paused a c l t w) as [r0 Hr]; try done.
      rewrite Hr in Hrun. simplify_eq.
      apply effects_one, effect_resume; [by rewrite Hkey|done..].
  - destruct (startTimer_absent a c w) as [r0 Hr]; try done.
    rewrite Hr in Hrun. simplify_eq. by apply effects_one, effect_create.
Qed.

Lemma pause_effects a c w r w' :
  Inv w → pause a c w = Some (r, w') → effects w w'.
Proof.
  intros HI Hrun. destruct (JSMap.get (key a c) (timers w)) as [l|] eqn:Hk.
  - destruct (inv_active w HI _ _ Hk) as (t & Ht & Hkey & Hns).
    destruct (status_cases _ Hns) as [Hs|Hs].
    + rewrite (pause_running a c l t w) in Hrun by done. simplify_eq.
      apply effects_one, effect_pause; [by rewrite Hkey|done..].
    + rewrite (pause_not_running a c l t w) in Hrun by (done || congruence).
      simplify_eq. apply effects_nil.
  - rewrite pause_absent in Hrun by done. simplify_eq. apply effects_nil.
Qed.

Lemma resume_effects a c w r w' :
  Inv w → resume a c w = Some (r, w') → effects w w'.
Proof.
  intros HI Hrun. destruct (JSMap.get (key a c) (timers w)) as [l|] eqn:Hk.
  - destruct (inv_active w HI _ _ Hk) as (t & Ht & Hkey & Hns).
    destruct (status_cases _ Hns) as [Hs|Hs].
    + rewrite (resume_not_paused a c l t w) in Hrun by (done || congruence).
      simplify_eq. apply effects_nil.
    + rewrite (resume_paused a c l t w) in Hrun by done. simplify_eq.
      apply effects_one, effect_resume; [by rewrite Hkey|done..].
  - rewrite resume_absent in Hrun by done. simplify_eq. apply effects_nil.
Qed.

Lemma handle_effects req w r w' :
  Inv w → handle req w = Some (r, w') → effects w w'.
Proof.
  intros HI. destruct req as [body|a c|a c|q|a]; unfold handle, bind.
  - destruct (initialize_logic body w) as [[r0 w0]|] eqn:E; [|done].
    unfold ret. intros H. simplify_eq. revert E. unfold initialize_logic.
    destruct (context body) as [ctx|];
      [|by unfold ret; intros; simplify_eq; apply effects_nil].
    destruct (negb _); [by unfold ret; intros; simplify_eq; apply effects_nil|].
    destruct (_ || _); [by unfold ret; intros; simplify_eq; apply effects_nil|].
    by apply startTimer_effects.
  - destruct (pause a c w) as [[r0 w0]|] eqn:E; [|done].
    unfold ret. intros H. simplify_eq. by eapply pause_effects.
  - destruct (resume a c w) as [[r0 w0]|] eqn:E; [|done].
    unfold ret. intros H. simplify_eq. by eapply resume_effects.
  - destruct (webhook q w) as [[r0 w0]|] eqn:E; [|done].
    unfold ret. intros H. simplify_eq. revert E. unfold webhook.
    destruct (verifyIntercomSignature _) as [[]|];
      try by unfold ret; intros; simplify_eq; apply effects_nil.
    unfold bind. destruct (String.eqb _ _).
    + destruct (close_conversation _ w) as [[[] w1]|] eqn:E; [|done].
      unfold ret. intros H. simplify_eq. by eapply close_loop_effects.
    + unfold ret. intros H. simplify_eq. apply effects_nil.
  - destruct (analytics_run a w (Inv_history_in_heap w HI)) as (r0 & ->).
    unfold ret. intros H. simplify_eq. apply effects_nil.
Qed.

(** An invariant of the initial states, of the moves of the clock and
    of the four effects holds in every state of the server. *)
Lemma reachable_by_effects (P : World → Prop) :
  (∀ now uuids, P (initial_world now uuids)) →
  (∀ w now, Inv w → P w → P (with_clock now w)) →
  (∀ w w', Inv w → P w → effect w w' → P w') →
  ∀ w, reachable w → P w.
Proof.
  intros Hinit Hclock Heff w Hr.
  induction Hr as [now uuids|w req r w' Hr IH Hrun|w now Hr IH].
  - apply Hinit.
  - pose proof (reachable_Inv w Hr) as HI.
    pose proof (handle_effects req w r w' HI Hrun) as He.
    clear Hrun Hr. induction He as [w|w1 w2 w3 He1 _ IH']; [done|].
    apply IH'; [by eapply Heff|by eapply effect_Inv].
  - apply Hclock; [by apply reachable_Inv|done].
Qed.

(** ** What a start answers and leaves *)

Lemma mapM_load_Forall2 (ls : list loc) ts w w' :
  mapM load ls w = Some (ts, w') →
  Forall2 (λ l s, heap w !! l = Some s) ls ts.
Proof.
  revert ts. induction ls as [|l ls IH]; intros ts; simpl.
  - unfold ret. intros H. simplify_eq. constructor.
  - unfold bind. destruct (load l w) as [[t w1]|] eqn:El; [|done].
    unfold load in El. destruct (heap w !! l) as [t0|] eqn:Hl; [|done].
    simplify_eq.
    destruct (mapM load ls w1) as [[ts' w'']|] eqn:E; [|done].
    unfold ret. intros H. simplify_eq. constructor; [done|]. by eapply IH.
Qed.

Ltac use_loaded Hts :=
  match goal with
  | |- context [mapM load ?ls ?w0] =>
      let ts := match type of Hts with _ = Some (?ts, _) => ts end in
      let H := fresh in
      assert (H : mapM load ls w0 = Some (ts, w0)) by exact Hts;
      rewrite H; clear H
  end.

(** The three cases of [startTimer], with the canvas. *)
Lemma startTimer_spec a c w :
  Inv w →
  ∃ l t' ts w',
    startTimer a c w =
      Some (canvas_timer running
              (total_elapsed t' + (clock w - last_update t'))
              (recent_line <$> ts), w') ∧
    JSMap.get (key a c) (timers w') = Some l ∧
    heap w' !! l = Some t' ∧ status t' = running ∧
    clock w' = clock w ∧
    conversationHistory w' = conversationHistory w ∧
    Forall2 (λ l s, heap w' !! l = Some s)
      (slice_last5 (default [] (JSMap.get (key a c) (conversationHistory w)))) ts ∧
    match JSMap.get (key a c) (timers w) with
    | None => w' = after_create a c w ∧ t' = new_timer a c w
    | Some l0 =>
        l0 = l ∧
        ∃ t, heap w !! l = Some t ∧
             ((status t = running ∧ w' = w ∧ t' = t) ∨
              (status t = paused ∧ t' = resumed_timer (clock w) t ∧
               w' = with_heap (<[l := t']> (heap w)) w))
    end.
Proof.
  intros HI. pose proof (Inv_history_in_heap w HI) as Hh.
  destruct (JSMap.get (key a c) (timers w)) as [l|] eqn:Hk.
  - destruct (inv_active w HI _ _ Hk) as (t & Ht & Hkey & Hns).
    destruct (status_cases _ Hns) as [Hs|Hs].
    + destruct (mapM_load_run _ w (recent_in_heap (key a c) w Hh)) as [ts Hts].
      exists l, t, ts, w. split_and!; try done.
      * unfold startTimer. mrun. rewrite Hs. mrun. rewrite Hs. mrun.
        use_loaded Hts. done.
      * exact (mapM_load_Forall2 _ _ _ _ Hts).
      * exists t. split; [done|]. by left.
    + set (t' := resumed_timer (clock w) t).
      set (w' := with_heap (<[l := t']> (heap w)) w).
      assert (Hl' : heap w' !! l = Some t') by by eapply heap_insert_lookup.
      destruct (mapM_load_run
                  (slice_last5 (default [] (JSMap.get (key a c) (conversationHistory w))))
                  w') as [ts Hts].
      { intros l' Hl0. destruct (recent_in_heap (key a c) w Hh l' Hl0) as [s Hs'].
        apply lookup_lt_is_Some. cbn. rewrite length_insert.
        by eapply lookup_lt_Some. }
      exists l, t', ts, w'. split_and!; try done.
      * unfold startTimer. subst w' t'. unfold resumed_timer in *.
        destruct t as [? ? ? ? ? [] ? ? ?]; try done. mrun.
        use_loaded Hts. cbn. repeat f_equal; lia.
      * exact (mapM_load_Forall2 _ _ _ _ Hts).
      * exists t. split; [done|]. by right.
  - set (t' := new_timer a c w). set (w' := after_create a c w).
    assert (Hl' : heap w' !! length (heap w) = Some t').
    { cbn. by rewrite lookup_app_r, Nat.sub_diag by lia. }
    destruct (mapM_load_run
                (slice_last5 (default [] (JSMap.get (key a c) (conversationHistory w))))
                w') as [ts Hts].
    { intros l' Hl0. destruct (recent_in_heap (key a c) w Hh l' Hl0) as [s Hs'].
      exists s. cbn. by apply lookup_app_l_Some. }
    exists (length (heap w)), t', ts, w'. split_and!; try done.
    + unfold startTimer. mrun. use_loaded Hts. cbn. repeat f_equal; lia.
    + cbn. apply get_set_eq.
    + exact (mapM_load_Forall2 _ _ _ _ Hts).
Qed.

(** X1. A start on a paused timer is a resume: in a state of the
    server where the key of [(a, c)] holds a paused timer,
    [startTimer] and the resume handler lead to the same world, in
    which the timer is running with [last_update] set to the clock and
    with its [total_elapsed], [session_id] and [start_time] kept. *)
Theorem start_on_paused_is_resume a c l t w :
  reachable w →
  JSMap.get (key a c) (timers w) = Some l → heap w !! l = Some t →
  status t = paused →
  ∃ r w' t',
    startTimer a c w = Some (r, w') ∧
    resume a c w = Some (mkTimerResponse 200 true, w') ∧
    heap w' !! l = Some t' ∧
    status t' = running ∧ last_update t' = clock w ∧
    total_elapsed t' = total_elapsed t ∧
    session_id t' = session_id t ∧ start_time t' = start_time t.
Proof.
  intros Hr Hk Hl Hs. apply reachable_Inv in Hr.
  destruct (startTimer_paused a c l t w) as [r Hrun];
    [done|done|done|by apply Inv_history_in_heap|].
  exists r, (with_heap (<[l := resumed_timer (clock w) t]> (heap w)) w),
         (resumed_timer (clock w) t).
  split_and!; try done.
  - by apply resume_paused.
  - by eapply heap_insert_lookup.
Qed.

Lemma world_paused_reachable : reachable world_paused.
Proof. apply serve_reachable, reach_clock, world_running_reachable. Defined.

Lemma start_on_paused_is_resume_witness :
  ∃ r w' t',
    startTimer "A" "C" (with_clock 15000 world_paused) = Some (r, w') ∧
    resume "A" "C" (with_clock 15000 world_paused)
      = Some (mkTimerResponse 200 true, w') ∧
    heap w' !! 0%nat = Some t' ∧
    status t' = running ∧ last_update t' = 15000 ∧
    total_elapsed t' = 10000 ∧
    session_id t' = "0" ∧ start_time t' = 0.
Proof.
  apply (start_on_paused_is_resume "A" "C" 0%nat
           (paused_timer 10000 (new_timer "A" "C" (initial_world 0 demo_uuids)))
           (with_clock 15000 world_paused));
    [apply reach_clock, world_paused_reachable|reflexivity..].
Defined.

(** X2. Whatever the state of the server (no timer under the key, a
    paused one or a running one), [startTimer] is served, answers with
    the status [running], and leaves under the key of [(a, c)] a
    running timer whose identifiers give that key; the elapsed time of
    the canvas is that timer's [total_elapsed] plus the time since its
    [last_update]. *)
Theorem start_leaves_running_timer a c w :
  reachable w →
  ∃ e recent w' l t',
    startTimer a c w = Some (canvas_timer running e recent, w') ∧
    JSMap.get (key a c) (timers w') = Some l ∧
    heap w' !! l = Some t' ∧ status t' = running ∧
    timerKey t' = key a c ∧
    e = total_elapsed t' + (clock w - last_update t').
Proof.
  intros Hr. pose proof (reachable_Inv w Hr) as HI.
  destruct (startTimer_spec a c w HI)
    as (l & t' & ts & w' & Hrun & Hk' & Hl' & Hs' & _).
  exists (total_elapsed t' + (clock w - last_update t')), (recent_line <$> ts),
         w', l, t'.
  split_and!; try done.
  assert (HI' : Inv w').
  { destruct (startTimer_Inv a c w HI) as (r0 & w0 & Hrun0 & HI0). congruence. }
  destruct (inv_active w' HI' _ _ Hk') as (t0 & Ht0 & Hkey & _). congruence.
Qed.

Lemma start_leaves_running_timer_witness :
  ∃ e recent w' l t',
    startTimer "A" "C" (with_clock 15000 world_paused)
      = Some (canvas_timer running e recent, w') ∧
    JSMap.get (key "A" "C") (timers w') = Some l ∧
    heap w' !! l = Some t' ∧ status t' = running ∧
    timerKey t' = key "A" "C" ∧
    e = total_elapsed t' + (15000 - last_update t').
Proof.
  apply (start_leaves_running_timer "A" "C" (with_clock 15000 world_paused)),
    reach_clock, world_paused_reachable.
Defined.

(** X3. The elapsed time that the canvas of a start shows is the
    [final_duration] recorded when the timer's conversation is closed
    at the same clock reading. *)
Theorem canvas_elapsed_is_duration_if_closed_now a c w :
  reachable w →
  ∃ e recent w1 l t' w2,
    startTimer a c w = Some (canvas_timer running e recent, w1) ∧
    JSMap.get (key a c) (timers w1) = Some l ∧ heap w1 !! l = Some t' ∧
    webhook (closed_event (conversation_id t')) w1 = Some (received_200, w2) ∧
    heap w2 !! l ≫= final_duration = Some e.
Proof.
  intros Hr. pose proof (reachable_Inv w Hr) as HI.
  destruct (startTimer_spec a c w HI)
    as (l & t' & ts & w1 & Hrun & Hk' & Hl' & Hs' & Hclock & _).
  assert (HI1 : Inv w1).
  { destruct (startTimer_Inv a c w HI) as (r0 & w0 & Hrun0 & HI0). congruence. }
  destruct (close_conversation_Inv (conversation_id t') w1 HI1)
    as (w2 & Hrun2 & _ & HP).
  destruct (get_lookup _ _ _ Hk') as [j Hj].
  destruct (post_targets _ _ _ _ HP (key a c) l t') as (_ & F2 & _).
  { exists j. split_and!; [lia|done..]. }
  exists (total_elapsed t' + (clock w - last_update t')), (recent_line <$> ts),
         w1, l, t', w2.
  split_and!; try done.
  - by apply webhook_closed_run.
  - rewrite F2. cbn. rewrite Hs'. cbn. by rewrite Hclock.
Qed.

Lemma canvas_elapsed_is_duration_if_closed_now_witness :
  ∃ e recent w1 l t' w2,
    startTimer "A" "C" (with_clock 7000 world_running)
      = Some (canvas_timer running e recent, w1) ∧
    JSMap.get (key "A" "C") (timers w1) = Some l ∧ heap w1 !! l = Some t' ∧
    webhook (closed_event (conversation_id t')) w1 = Some (received_200, w2) ∧
    heap w2 !! l ≫= final_duration = Some e.
Proof.
  apply (canvas_elapsed_is_duration_if_closed_now "A" "C"
           (with_clock 7000 world_running)),
    reach_clock, world_running_reachable.
Defined.

(** X4. The recent sessions of the canvas are the last five records of
    the key's history, fewer when the history is shorter, in the order
    of the history; each line carries the record's [final_duration]
    and [start_time]. *)
Theorem canvas_shows_last_five_sessions a c w :
  reachable w →
  ∃ e ts w',
    startTimer a c w = Some (canvas_timer running e (recent_line <$> ts), w') ∧
    let h := default [] (JSMap.get (key a c) (conversationHistory w)) in
    length ts = Nat.min 5 (length h) ∧
    Forall2 (λ l s, heap w' !! l = Some s) (drop (length h - 5) h) ts.
Proof.
  intros Hr. pose proof (reachable_Inv w Hr) as HI.
  destruct (startTimer_spec a c w HI)
    as (l & t' & ts & w' & Hrun & _ & _ & _ & _ & _ & HF & _).
  exists (total_elapsed t' + (clock w - last_update t')), ts, w'.
  split; [done|]. cbn zeta. split; [|done].
  apply Forall2_length in HF. rewrite <- HF. unfold slice_last5.
  rewrite length_drop. lia.
Qed.

Lemma canvas_shows_last_five_sessions_witness :
  ∃ e ts w',
    startTimer "A" "C" world_stopped
      = Some (canvas_timer running e (recent_line <$> ts), w') ∧
    let h := default [] (JSMap.get (key "A" "C") (conversationHistory world_stopped)) in
    length ts = Nat.min 5 (length h) ∧
    Forall2 (λ l s, heap w' !! l = Some s) (drop (length h - 5) h) ts.
Proof.
  apply (canvas_shows_last_five_sessions "A" "C" world_stopped).
  eapply (reach_request world_running (req_webhook (closed_event "C")));
    [apply world_running_reachable|reflexivity].
Defined.

(** ** The request body of [/test-initialize] *)



(** ** Pauses and resumptions *)

(** X6. A repeated pause is a no-op, and so is a repeated resume: once
    a pause (a resume) for [(a, c)] has been served, the same request
    again, at any clock reading, is answered alike and leaves the
    world as it is. *)
Theorem repeated_pause_or_resume_is_no_op a c w :
  reachable w →
  (∀ r w1, pause a c w = Some (r, w1) →
     ∀ now, pause a c (with_clock now w1)
            = Some (mkTimerResponse 200 true, with_clock now w1)) ∧
  (∀ r w1, resume a c w = Some (r, w1) →
     ∀ now, resume a c (with_clock now w1)
            = Some (mkTimerResponse 200 true, with_clock now w1)).
Proof.
  intros Hr. pose proof (reachable_Inv w Hr) as HI.
  destruct (JSMap.get (key a c) (timers w)) as [l|] eqn:Hk.
  - destruct (inv_active w HI _ _ Hk) as (t & Ht & Hkey & Hns).
    assert (Hlt : (l < length (heap w))%nat) by by eapply lookup_lt_Some.
    destruct (status_cases _ Hns) as [Hs|Hs]; split; intros r w1 Hrun now.
    + rewrite (pause_running a c l t w) in Hrun by done. simplify_eq.
      apply (pause_not_running a c l (paused_timer (clock w) t)); [done| |done].
      cbn. by apply list_lookup_insert_eq.
    + rewrite (resume_not_paused a c l t w) in Hrun by (done || congruence).
      simplify_eq. apply (resume_not_paused a c l t); [done|done|congruence].
    + rewrite (pause_not_running a c l t w) in Hrun by (done || congruence).
      simplify_eq. apply (pause_not_running a c l t); [done|done|congruence].
    + rewrite (resume_paused a c l t w) in Hrun by done. simplify_eq.
      apply (resume_not_paused a c l (resumed_timer (clock w) t)); [done| |done].
      cbn. by apply list_lookup_insert_eq.
  - split; intros r w1 Hrun now.
    + rewrite pause_absent in Hrun by done. simplify_eq. by apply pause_absent.
    + rewrite resume_absent in Hrun by done. simplify_eq. by apply resume_absent.
Qed.

Lemma repeated_pause_or_resume_is_no_op_witness :
  pause "A" "C" (with_clock 12000 world_paused)
    = Some (mkTimerResponse 200 true, with_clock 12000 world_paused) ∧
  resume "A" "C" (with_clock 12000 world_running)
    = Some (mkTimerResponse 200 true, with_clock 12000 world_running).
Proof.
  split.
  - apply (proj1 (repeated_pause_or_resume_is_no_op "A" "C"
                    (with_clock 10000 world_running)
                    (reach_clock _ _ world_running_reachable))
             (mkTimerResponse 200 true) world_paused).
    reflexivity.
  - apply (proj2 (repeated_pause_or_resume_is_no_op "A" "C"
                    (with_clock 10000 world_running)
                    (reach_clock _ _ world_running_reachable))
             (mkTimerResponse 200 true) (with_clock 10000 world_running)).
    reflexivity.
Defined.

Lemma pause_resume_cycles_run a c cycles : ∀ w l t,
  Inv w → JSMap.get (key a c) (timers w) = Some l → heap w !! l = Some t →
  status t = running →
  ∃ w' t',
    pause_resume_cycles a c cycles w = Some (tt, w') ∧ Inv w' ∧
    JSMap.get (key a c) (timers w') = Some l ∧ heap w' !! l = Some t' ∧
    status t' = running ∧ conversation_id t' = conversation_id t ∧
    conversationHistory w' = conversationHistory w ∧
    ∀ stop, total_elapsed t' + (stop - last_update t')
            = total_elapsed t + running_time (last_update t) cycles stop.
Proof.
  induction cycles as [|[p r] rest IH]; intros w l t HI Hk Hl Hs.
  - exists w, t. split_and!; try done; intros stop; cbn; lia.
  - destruct (inv_active w HI _ _ Hk) as (t0 & Ht0 & Hkey & _).
    assert (t0 = t) as -> by congruence.
    set (wp := with_clock p w).
    set (t1 := paused_timer p t).
    set (w1 := with_heap (<[l := t1]> (heap wp)) wp).
    assert (Hrun1 : pause a c wp = Some (mkTimerResponse 200 true, w1))
      by by apply (pause_running a c l t).
    assert (HI1 : Inv w1).
    { apply (Inv_update l t); [by apply Inv_with_clock|unfold timerKey in *; cbn; congruence|done..]. }
    set (wr := with_clock r w1).
    set (t2 := resumed_timer r t1).
    set (w2 := with_heap (<[l := t2]> (heap wr)) wr).
    assert (Hl1 : heap wr !! l = Some t1) by by eapply heap_insert_lookup.
    assert (Hrun2 : resume a c wr = Some (mkTimerResponse 200 true, w2))
      by by apply (resume_paused a c l t1).
    assert (HI2 : Inv w2).
    { apply (Inv_update l t1); [by apply Inv_with_clock|unfold timerKey in *; cbn; congruence|done..]. }
    assert (Hl2 : heap w2 !! l = Some t2) by by eapply heap_insert_lookup.
    destruct (IH w2 l t2 HI2 Hk Hl2 eq_refl)
      as (w' & t' & Hrun & HI' & Hk' & Hl' & Hs' & Hc' & Hh' & Hsum).
    exists w', t'. split_and!; try done.
    + cbn [pause_resume_cycles]. unfold bind, at_clock. fold wp.
      rewrite Hrun1. fold wr. rewrite Hrun2. done.
    + intros stop. rewrite Hsum. cbn. lia.
Qed.

(** X7. With any number of pauses and resumptions: from a state of the
    server without a timer under the key of [(a, c)], a start at clock
    [t0], then for each pair [(p, r)] a pause at [p] and a resume at
    [r], then the closing of the conversation at [t3], are all served.
    The timer [l] that the start has put under the key is still the
    entry of the key after the cycles, and its [final_duration], like
    that of the record appended last to the history, is the sum of the
    running intervals: from each start or resumption to the next pause
    or to the stop. *)
Theorem duration_excludes_every_pause a c t0 cycles t3 w :
  reachable w → JSMap.get (key a c) (timers w) = None →
  ∃ r0 w1 w2 w3 l l',
    startTimer a c (with_clock t0 w) = Some (r0, w1) ∧
    pause_resume_cycles a c cycles w1 = Some (tt, w2) ∧
    JSMap.get (key a c) (timers w1) = Some l ∧
    JSMap.get (key a c) (timers w2) = Some l ∧
    webhook (closed_event c) (with_clock t3 w2) = Some (received_200, w3) ∧
    heap w3 !! l ≫= final_duration = Some (running_time t0 cycles t3) ∧
    last <$> JSMap.get (key a c) (conversationHistory w3) = Some (Some l') ∧
    heap w3 !! l' ≫= final_duration = Some (running_time t0 cycles t3).
Proof.
  intros Hr Hk.
  assert (HI0 : Inv (with_clock t0 w)) by by apply Inv_with_clock, reachable_Inv.
  destruct (startTimer_absent a c (with_clock t0 w)) as [r0 Hrun0];
    [done|by apply Inv_history_in_heap|].
  set (w1 := after_create a c (with_clock t0 w)) in *.
  set (l := length (heap w)).
  set (tm0 := new_timer a c (with_clock t0 w)).
  assert (HI1 : Inv w1) by by apply Inv_after_create.
  assert (Hg1 : JSMap.get (key a c) (timers w1) = Some l)
    by (cbn; apply get_set_eq).
  assert (Hl1 : heap w1 !! l = Some tm0).
  { cbn. by rewrite lookup_app_r, Nat.sub_diag by lia. }
  destruct (pause_resume_cycles_run a c cycles w1 l tm0 HI1 Hg1 Hl1 eq_refl)
    as (w2 & t2 & Hrun2 & HI2 & Hk2 & Hl2 & Hs2 & Hc2 & Hh2 & Hsum).
  destruct (close_conversation_Inv c _ (Inv_with_clock t3 _ HI2))
    as (w3 & Hrun3 & _ & HP).
  destruct (get_lookup _ _ _ Hk2) as [j Hj].
  destruct (post_targets _ _ _ _ HP (key a c) l t2)
    as (_ & F2 & l' & F3 & _ & F5).
  { exists j. split_and!; [lia|done..]. }
  assert (Hfd : final_duration (stopped_timer t3 t2)
                = Some (running_time t0 cycles t3)).
  { cbn. rewrite Hs2. cbn. f_equal. rewrite Hsum. cbn. lia. }
  exists r0, w1, w2, w3, l, l'. split_and!; try done.
  - by apply webhook_closed_run.
  - rewrite F2. exact Hfd.
  - rewrite F3. cbn. by rewrite last_snoc.
  - rewrite F5. exact Hfd.
Qed.

Lemma duration_excludes_every_pause_witness :
  ∃ r0 w1 w2 w3 l l',
    startTimer "A" "C" (with_clock 0 (initial_world 0 demo_uuids)) = Some (r0, w1) ∧
    pause_resume_cycles "A" "C" [(10000, 15000); (18000, 30000)] w1 = Some (tt, w2) ∧
    JSMap.get (key "A" "C") (timers w1) = Some l ∧
    JSMap.get (key "A" "C") (timers w2) = Some l ∧
    webhook (closed_event "C") (with_clock 31000 w2) = Some (received_200, w3) ∧
    heap w3 !! l ≫= final_duration = Some 14000 ∧
    last <$> JSMap.get (key "A" "C") (conversationHistory w3) = Some (Some l') ∧
    heap w3 !! l' ≫= final_duration = Some 14000.
Proof.
  apply (duration_excludes_every_pause "A" "C" 0
           [(10000, 15000); (18000, 30000)] 31000 (initial_world 0 demo_uuids));
    [apply reach_init|reflexivity].
Defined.

(** ** Times in order when the clock does not go back *)

Lemma reachable_forward_reachable w : reachable_forward w → reachable w.
Proof.
  induction 1; [apply reach_init|by eapply reach_request|by apply reach_clock].
Qed.

Lemma forward_by_effects (P : World → Prop) :
  (∀ now uuids, P (initial_world now uuids)) →
  (∀ w now, Inv w → P w → (clock w ≤ now)%Z → P (with_clock now w)) →
  (∀ w w', Inv w → P w → effect w w' → P w') →
  ∀ w, reachable_forward w → P w.
Proof.
  intros Hinit Hclock Heff w Hr.
  induction Hr as [now uuids|w req r w' Hr IH Hrun|w now Hr IH Hle].
  - apply Hinit.
  - pose proof (reachable_Inv w (reachable_forward_reachable w Hr)) as HI.
    pose proof (handle_effects req w r w' HI Hrun) as He.
    clear Hrun Hr. induction He as [w|w1 w2 w3 He1 _ IH']; [done|].
    apply IH'; [by eapply Heff|by eapply effect_Inv].
  - apply Hclock; [by apply reachable_Inv, reachable_forward_reachable|done..].
Qed.

Lemma times_in_order_mono now now' t :
  (now ≤ now')%Z → times_in_order now t → times_in_order now' t.
Proof.
  intros Hle (H1 & H2 & H3 & H4 & H5). split_and!; try done; [lia|].
  intros Hs. destruct (H5 Hs) as (e & He & Hfd & Hle1 & Hle2).
  exists e. split_and!; try done. lia.
Qed.

Lemma times_in_order_paused now t :
  status t = running → times_in_order now t →
  times_in_order now (paused_timer now t).
Proof.
  intros Hs (H1 & H2 & H3 & H4 & H5).
  assert (total_elapsed t ≤ last_update t - start_time t)%Z
    by (apply H4; congruence).
  split_and!; cbn; try lia; done.
Qed.

Lemma times_in_order_resumed now t :
  status t = paused → times_in_order now t →
  times_in_order now (resumed_timer now t).
Proof.
  intros Hs (H1 & H2 & H3 & H4 & H5).
  assert (total_elapsed t ≤ last_update t - start_time t)%Z
    by (apply H4; congruence).
  split_and!; cbn; try lia; done.
Qed.

Lemma times_in_order_stopped now t :
  status t ≠ stopped → times_in_order now t →
  times_in_order now (stopped_timer now t).
Proof.
  intros Hs (H1 & H2 & H3 & H4 & H5). specialize (H4 Hs).
  split_and!; cbn; try done.
  - destruct (Status_eqb (status t) running); lia.
  - intros _. exists now. split_and!; try done.
    destruct (Status_eqb (status t) running); lia.
Qed.

(** X8. When the clock never goes back, the times of every object of
    the heap, live timer or history record, are in order in every
    state of the server: [start_time <= last_update <= clock] and
    [0 <= total_elapsed]. A running or paused object has
    [total_elapsed <= last_update - start_time]. A stopped object,
    whose [last_update] is left as it was by [stopTimer], has
    [final_duration = total_elapsed <= end_time - start_time] and
    [end_time <= clock]. *)
Theorem times_in_order_with_forward_clock w :
  reachable_forward w →
  ∀ l t, heap w !! l = Some t → times_in_order (clock w) t.
Proof.
  revert w.
  apply (forward_by_effects
           (λ w, ∀ l t, heap w !! l = Some t → times_in_order (clock w) t)).
  - intros now uuids l t Hl. cbn in Hl. by rewrite lookup_nil in Hl.
  - intros w now HI HP Hle l t Hl. cbn.
    eapply times_in_order_mono; [done|]. by eapply HP.
  - intros w w' HI HP He.
    destruct He as [a c w Hk|l0 t0 w Hk Hl0 Hs|l0 t0 w Hk Hl0 Hs|l0 t0 w Hk Hl0];
      intros l t Hl; cbn in Hl |- *.
    + apply lookup_app_Some in Hl as [Hl|[_ Hl]]; [by eapply HP|].
      apply list_lookup_singleton_Some in Hl as [_ <-].
      split_and!; cbn; try lia; done.
    + destruct (decide (l = l0)) as [->|Hne].
      * erewrite heap_insert_lookup in Hl by done. simplify_eq.
        apply times_in_order_paused; [done|by eapply HP].
      * rewrite list_lookup_insert_ne in Hl by done. by eapply HP.
    + destruct (decide (l = l0)) as [->|Hne].
      * erewrite heap_insert_lookup in Hl by done. simplify_eq.
        apply times_in_order_resumed; [done|by eapply HP].
      * rewrite list_lookup_insert_ne in Hl by done. by eapply HP.
    + destruct (inv_active w HI _ _ Hk) as (t1 & Ht1 & _ & Hns).
      assert (t1 = t0) as -> by congruence.
      apply lookup_app_Some in Hl as [Hl|[_ Hl]].
      * destruct (decide (l = l0)) as [->|Hne].
        -- erewrite heap_insert_lookup in Hl by done. simplify_eq.
           apply times_in_order_stopped; [done|by eapply HP].
        -- rewrite list_lookup_insert_ne in Hl by done. by eapply HP.
      * apply list_lookup_singleton_Some in Hl as [_ <-].
        apply times_in_order_stopped; [done|by eapply HP].
Qed.

Lemma world_paused_reachable_forward : reachable_forward (with_clock 15000 world_paused).
Proof.
  apply forward_clock; [|by vm_compute].
  eapply (forward_request (with_clock 10000 world_running) (req_pause "A" "C"));
    [|reflexivity].
  apply forward_clock; [|by vm_compute].
  eapply (forward_request (initial_world 0 demo_uuids)
            (req_initialize (demo_body "A" "C"))); [|reflexivity].
  apply forward_init.
Defined.

Lemma times_in_order_with_forward_clock_witness :
  times_in_order 15000
    (paused_timer 10000 (new_timer "A" "C" (initial_world 0 demo_uuids))).
Proof.
  apply (times_in_order_with_forward_clock (with_clock 15000 world_paused)
           world_paused_reachable_forward 0%nat).
  reflexivity.
Defined.

(** ** The history only grows *)

Lemma history_kept_refl w : history_kept w w.
Proof. intros k h Hk. split; [|done]. exists []. by rewrite app_nil_r. Qed.

Lemma history_kept_trans w1 w2 w3 :
  history_kept w1 w2 → history_kept w2 w3 → history_kept w1 w3.
Proof.
  intros H12 H23 k h Hk. destruct (H12 k h Hk) as [[h' Hk2] Hobj].
  destruct (H23 k _ Hk2) as [[h'' Hk3] Hobj']. split.
  - exists (h' ++ h''). by rewrite app_assoc.
  - intros l Hl. rewrite Hobj', Hobj; [done|done|]. apply elem_of_app. by left.
Qed.

Lemma effect_history_kept w w' : Inv w → effect w w' → history_kept w w'.
Proof.
  intros HI He k h Hk.
  assert (Hrec : ∀ l, l ∈ h → ∃ s, heap w !! l = Some s ∧ status s = stopped).
  { intros l Hl. destruct (inv_history w HI k h l (get_entries _ _ _ Hk) Hl)
      as (s & Hs & Hss & _). by exists s. }
  destruct He as [a c w Hk0|l0 t0 w Hk0 Hl0 Hs|l0 t0 w Hk0 Hl0 Hs|l0 t0 w Hk0 Hl0];
    cbn.
  - split; [exists []; by rewrite app_nil_r|].
    intros l Hl. destruct (Hrec l Hl) as (s & Hs & _).
    rewrite Hs. by apply lookup_app_l_Some.
  - split; [exists []; by rewrite app_nil_r|].
    intros l Hl. destruct (Hrec l Hl) as (s & Hs' & Hss).
    apply list_lookup_insert_ne. intros ->. congruence.
  - split; [exists []; by rewrite app_nil_r|].
    intros l Hl. destruct (Hrec l Hl) as (s & Hs' & Hss).
    apply list_lookup_insert_ne. intros ->. congruence.
  - destruct (inv_active w HI _ _ Hk0) as (t1 & Ht1 & _ & Hns).
    assert (t1 = t0) as -> by congruence. split.
    + destruct (decide (timerKey t0 = k)) as [<-|Hne].
      * rewrite get_set_eq, Hk. cbn. by eexists.
      * rewrite get_set_ne by done. exists []. by rewrite app_nil_r.
    + intros l Hl. destruct (Hrec l Hl) as (s & Hs' & Hss).
      rewrite lookup_app_l
        by (rewrite length_insert; by eapply lookup_lt_Some).
      apply list_lookup_insert_ne. intros ->. congruence.
Qed.

Lemma effects_history_kept w w' : Inv w → effects w w' → history_kept w w'.
Proof.
  intros HI He. induction He as [w|w1 w2 w3 He1 _ IH].
  - apply history_kept_refl.
  - eapply history_kept_trans; [by apply effect_history_kept|].
    apply IH. by eapply effect_Inv.
Qed.

(** X9. The history is append-only and its records never change: a
    request served in a state of the server leaves every history list
    as a prefix of the list it has afterwards, and every record of
    these lists with all its fields as before. *)
Theorem history_is_append_only req w r w' :
  reachable w → handle req w = Some (r, w') → history_kept w w'.
Proof.
  intros Hr Hrun. pose proof (reachable_Inv w Hr) as HI.
  apply effects_history_kept; [done|]. by eapply handle_effects.
Qed.

Lemma history_is_append_only_witness :
  history_kept (with_clock 5 world_stopped)
    (serve (req_initialize (demo_body "A" "C")) (with_clock 5 world_stopped)).
Proof.
  apply (history_is_append_only (req_initialize (demo_body "A" "C"))
           (with_clock 5 world_stopped)
           (resp_initialize (canvas_timer running 0 [(0, 0)]))
           (serve (req_initialize (demo_body "A" "C")) (with_clock 5 world_stopped))).
  - apply reach_clock.
    eapply (reach_request world_running (req_webhook (closed_event "C")));
      [apply world_running_reachable|reflexivity].
  - vm_compute. reflexivity.
Defined.

(** ** The signature gate of the webhook *)

(** X10. The webhook accepts exactly the header ['sha1=' + digest]:
    with that header the request is handled as signed; with any other
    header, or none, the world is left as it is, and the answer is 401,
    except for a non-empty header of another length than the expected
    signature, where [timingSafeEqual] throws and the answer is 500. *)
Theorem webhook_requires_exact_signature signature digest type c w :
  (signature = Some ("sha1=" ++ digest)%string →
   x_hub_signature (signed_request signature digest type c) = signature_matches) ∧
  (signature ≠ Some ("sha1=" ++ digest)%string →
   ∃ r, webhook (signed_request signature digest type c) w = Some (r, w) ∧
        (r = invalid_signature_401 ∨ r = uncaught_exception_500) ∧
        (r = uncaught_exception_500 ↔
         ∃ s, signature = Some s ∧ s ≠ "" ∧
              String.length s ≠ String.length ("sha1=" ++ digest)%string)).
Proof.
  split.
  - intros ->. unfold signed_request, check_signature. cbn.
    by rewrite Nat.eqb_refl, String.eqb_refl.
  - intros Hne. unfold webhook, signed_request, check_signature. cbn.
    destruct signature as [s|]; cbn.
    + destruct (String.eqb_spec s "") as [->|Hs]; cbn.
      { eexists. split; [done|]. split; [by left|]. split; [done|].
        intros (s & Heq & Hs & _). by simplify_eq. }
      destruct (Nat.eqb_spec (String.length s)
                  (String.length ("sha1=" ++ digest)%string)) as [Hlen|Hlen]; cbn.
      * destruct (String.eqb_spec s ("sha1=" ++ digest)%string) as [->|Hd]; [done|].
        cbn. eexists. split; [done|]. split; [by left|]. split; [done|].
        intros (s' & Heq & _ & Hl). by simplify_eq.
      * eexists. split; [done|]. split; [by right|]. split; [|done].
        intros _. by exists s.
    + eexists. split; [done|]. split; [by left|]. split; [done|].
      intros (s & Heq & _). done.
Qed.

(** ** [/health] and [/dashboard] *)

Lemma entries_cons_Some {V : Type} k (v : V) (m : jsmap V) :
  JSMap.entries (Some (k, v) :: m) = (k, v) :: JSMap.entries m.
Proof. reflexivity. Qed.

Lemma entries_cons_None {V : Type} (m : jsmap V) :
  JSMap.entries (None :: m) = JSMap.entries m.
Proof. reflexivity. Qed.

Lemma entries_set_fresh {V : Type} k (v : V) (m : jsmap V) :
  k ∉ JSMap.keys m → JSMap.entries (JSMap.set k v m) = JSMap.entries m ++ [(k, v)].
Proof.
  induction m as [|[[k0 v0]|] m IH]; [done| |].
  - rewrite keys_cons_Some, not_elem_of_cons. intros [Hne Hn]. simpl.
    destruct (String.eqb_spec k0 k) as [->|_]; [done|].
    rewrite !entries_cons_Some, IH by done. done.
  - rewrite keys_cons_None. intros Hn.
    change (JSMap.entries (JSMap.set k v m) = JSMap.entries m ++ [(k, v)]).
    by apply IH.
Qed.

Lemma entries_get {V : Type} k (v : V) (m : jsmap V) :
  JSMap.wf m → (k, v) ∈ JSMap.entries m → JSMap.get k m = Some v.
Proof.
  unfold JSMap.wf. induction m as [|[[k0 v0]|] m IH].
  - intros _ H. by apply elem_of_nil in H.
  - rewrite keys_cons_Some, NoDup_cons, entries_cons_Some, elem_of_cons.
    intros [Hn Hnd] [Heq|Hin]; simpl.
    + simplify_eq. by rewrite String.eqb_refl.
    + destruct (String.eqb_spec k0 k) as [->|_]; [|by apply IH].
      destruct Hn. apply list_elem_of_fmap. by exists (k, v).
  - rewrite keys_cons_None, entries_cons_None. simpl. apply IH.
Qed.

Lemma size_keys {V : Type} (m : jsmap V) : JSMap.size m = length (JSMap.keys m).
Proof. unfold JSMap.size, JSMap.keys. by rewrite length_map. Qed.

(** Without repeated UUIDs: [sessions] holds one entry per call of
    [generateSessionId], and every active timer is registered. *)
Lemma sessions_registry w :
  reachable w → Inj (=) (=) (uuid_source w) →
  JSMap.keys (sessions w) = uuid_source w <$> seq 0 (uuid_calls w) ∧
  ∀ k l, JSMap.get k (timers w) = Some l →
         ∃ sid, (sid, l) ∈ JSMap.entries (sessions w).
Proof.
  revert w.
  apply (reachable_by_effects
           (λ w, Inj (=) (=) (uuid_source w) →
                 JSMap.keys (sessions w) = uuid_source w <$> seq 0 (uuid_calls w) ∧
                 ∀ k l, JSMap.get k (timers w) = Some l →
                        ∃ sid, (sid, l) ∈ JSMap.entries (sessions w))).
  - intros now uuids _. cbn. split; [done|]. intros k l H. done.
  - intros w now _ HP Hinj. by apply HP.
  - intros w w' HI HP He.
    destruct He as [a c w Hk|l0 t0 w Hk Hl0 Hs|l0 t0 w Hk Hl0 Hs|l0 t0 w Hk Hl0];
      intros Hinj; destruct (HP Hinj) as [Hkeys Hreg];
      cbn [sessions timers uuid_source uuid_calls heap after_create after_stop
           with_heap].
    + assert (Hfresh : uuid_source w (uuid_calls w) ∉ JSMap.keys (sessions w)).
      { rewrite Hkeys. intros Hin. apply list_elem_of_fmap in Hin as (m & Heq & Hm).
        apply Hinj in Heq. subst. apply elem_of_seq in Hm. lia. }
      split.
      * rewrite keys_set, bool_decide_eq_false_2 by done.
        rewrite Hkeys, seq_S, fmap_app. done.
      * intros k l Hg. rewrite entries_set_fresh by done.
        destruct (decide (key a c = k)) as [<-|Hne].
        -- rewrite get_set_eq in Hg. simplify_eq. eexists.
           apply elem_of_app. right. by apply list_elem_of_singleton.
        -- rewrite get_set_ne in Hg by done. destruct (Hreg k l Hg) as [sid Hin].
           exists sid. apply elem_of_app. by left.
    + done.
    + done.
    + split; [done|]. intros k l Hg.
      destruct (decide (timerKey t0 = k)) as [<-|Hne].
      * rewrite get_delete_eq in Hg by apply HI. done.
      * rewrite get_delete_ne in Hg by done. by eapply Hreg.
Qed.

Lemma NoDup_snd_of_fst {A B : Type} (es : list (A * B)) :
  NoDup es.*1 →
  (∀ k1 k2 l, (k1, l) ∈ es → (k2, l) ∈ es → k1 = k2) →
  NoDup es.*2.
Proof.
  induction es as [|[k l] es IH]; cbn; [constructor|].
  rewrite !NoDup_cons. intros [Hn Hnd] Hfun. split.
  - intros Hin. apply list_elem_of_fmap in Hin as ([k' l'] & Heq & Hin).
    cbn in Heq. subst l'.
    assert (k = k') as ->.
    { apply (Hfun k k' l); [by left|by right]. }
    apply Hn. apply list_elem_of_fmap. by exists (k', l).
  - apply IH; [done|]. intros k1 k2 l0 H1 H2.
    apply (Hfun k1 k2 l0); by right.
Qed.

(** X11. Unless [crypto.randomUUID] repeats a value, [/health]
    reports as [total_sessions] the number of timers created so far
    (one per call of [generateSessionId]: stopping a timer does not
    count a session, and nothing is ever removed), and the active
    timers are never more. *)
Theorem health_counts_created_timers w :
  reachable w → Inj (=) (=) (uuid_source w) →
  ∃ active total,
    health w = Some (mkHealthResponse "ok" active total, w) ∧
    total = uuid_calls w ∧ (active ≤ total)%nat.
Proof.
  intros Hr Hinj. pose proof (reachable_Inv w Hr) as HI.
  destruct (sessions_registry w Hr Hinj) as [Hkeys Hreg].
  exists (JSMap.size (timers w)), (JSMap.size (sessions w)).
  split_and!; [done| |].
  - by rewrite size_keys, Hkeys, length_fmap, length_seq.
  - unfold JSMap.size.
    rewrite <- (length_fmap snd (JSMap.entries (timers w))).
    rewrite <- (length_fmap snd (JSMap.entries (sessions w))).
    apply submseteq_length, NoDup_submseteq.
    + apply NoDup_snd_of_fst; [apply HI|].
      intros k1 k2 l H1 H2.
      apply (entries_get _ _ _ (inv_wf w HI)) in H1, H2.
      destruct (inv_active w HI _ _ H1) as (t1 & Ht1 & Hk1 & _).
      destruct (inv_active w HI _ _ H2) as (t2 & Ht2 & Hk2 & _).
      congruence.
    + intros l Hin. apply list_elem_of_fmap in Hin as ([k l'] & Heq & Hin).
      cbn in Heq. subst l'.
      apply (entries_get _ _ _ (inv_wf w HI)) in Hin.
      destruct (Hreg k l Hin) as [sid Hsid].
      apply list_elem_of_fmap. by exists (sid, l).
Qed.

Lemma unary_uuid_inj : Inj (=) (=) unary_uuid.
Proof.
  intros n. induction n as [|n IH]; intros [|m] H; cbn in H; try done.
  f_equal. apply IH. by simplify_eq.
Defined.

Lemma health_counts_created_timers_witness :
  ∃ active total,
    health world_two_created = Some (mkHealthResponse "ok" active total, world_two_created) ∧
    total = 2%nat ∧ (active ≤ total)%nat.
Proof.
  apply (health_counts_created_timers world_two_created).
  - do 3 apply serve_reachable. apply reach_init.
  - apply unary_uuid_inj.
Defined.

Lemma dashboard_rows (es : list (string * loc)) w :
  (∀ e, e ∈ es → is_Some (heap w !! e.2)) →
  ∃ rows, mapM dashboard_row es w = Some (rows, w) ∧
          Forall2 (λ e row, ∃ t, heap w !! e.2 = Some t ∧ row = row_of (clock w) t)
                  es rows.
Proof.
  induction es as [|e es IH]; intros Hall; simpl.
  - exists []. split; [done|constructor].
  - destruct (Hall e) as [t Ht]; [by left|].
    destruct IH as (rows & Hrows & HF); [intros e' He'; apply Hall; by right|].
    exists (row_of (clock w) t :: rows). split.
    + unfold bind. unfold dashboard_row at 1. unfold bind.
      rewrite (load_run _ _ _ Ht). unfold row_of.
      destruct (Status_eqb (status t) running); cbn; by rewrite Hrows.
    + constructor; [by exists t|done].
Qed.

(** X12. In every state of the server the dashboard is rendered and
    changes nothing; it has one row per entry of the active store, in
    insertion order, and its count of active timers is the number of
    rows. No row shows a stopped timer, no pair of identifiers has two
    rows with the same key, and the elapsed time of a row is the
    timer's [total_elapsed], plus the time since [last_update] when it
    is running. *)
Theorem dashboard_lists_the_active_timers w :
  reachable w →
  ∃ rows,
    dashboard w
      = Some (mkDashboardPage (length rows) (JSMap.size (sessions w)) rows, w) ∧
    Forall2 (λ e row, ∃ t, heap w !! e.2 = Some t ∧ row = row_of (clock w) t ∧
                           key (row_admin_id row) (row_conversation_id row) = e.1 ∧
                           row_status row ≠ stopped)
            (JSMap.entries (timers w)) rows ∧
    NoDup ((λ row, key (row_admin_id row) (row_conversation_id row)) <$> rows).
Proof.
  intros Hr. pose proof (reachable_Inv w Hr) as HI.
  assert (Hentry : ∀ e, e ∈ JSMap.entries (timers w) →
            ∃ t, heap w !! e.2 = Some t ∧ timerKey t = e.1 ∧ status t ≠ stopped).
  { intros [k l] Hin. apply (entries_get _ _ _ (inv_wf w HI)) in Hin.
    by apply (inv_active w HI). }
  destruct (dashboard_rows (JSMap.entries (timers w)) w) as (rows & Hrows & HF).
  { intros e He. destruct (Hentry e He) as (t & Ht & _). by exists t. }
  assert (HF' : Forall2 (λ e row, ∃ t, heap w !! e.2 = Some t ∧
                   row = row_of (clock w) t ∧
                   key (row_admin_id row) (row_conversation_id row) = e.1 ∧
                   row_status row ≠ stopped)
                  (JSMap.entries (timers w)) rows).
  { apply Forall2_same_length_lookup. split; [by eapply Forall2_length|].
    intros i e row He Hrow.
    destruct (Forall2_lookup_lr _ _ _ _ _ _ HF He Hrow) as (t & Ht & ->).
    destruct (Hentry e) as (t' & Ht' & Hkey & Hns);
      [by eapply list_elem_of_lookup_2|].
    assert (t' = t) as -> by congruence. by exists t. }
  exists rows. split_and!.
  - unfold dashboard, bind. rewrite Hrows. unfold ret. do 3 f_equal.
    unfold JSMap.size. by eapply Forall2_length.
  - done.
  - assert (Hkeys : (λ row, key (row_admin_id row) (row_conversation_id row)) <$> rows
                    = JSMap.keys (timers w)).
    { unfold JSMap.keys. clear -HF'.
      induction HF' as [|e row es rows (t & _ & _ & Hk & _) _ IH]; [done|].
      cbn. by rewrite Hk, IH. }
    rewrite Hkeys. apply HI.
Qed.

Lemma dashboard_lists_the_active_timers_witness :
  ∃ rows,
    dashboard world_three
      = Some (mkDashboardPage (length rows) (JSMap.size (sessions world_three)) rows,
              world_three) ∧
    Forall2 (λ e row, ∃ t, heap world_three !! e.2 = Some t ∧
                           row = row_of (clock world_three) t ∧
                           key (row_admin_id row) (row_conversation_id row) = e.1 ∧
                           row_status row ≠ stopped)
            (JSMap.entries (timers world_three)) rows ∧
    NoDup ((λ row, key (row_admin_id row) (row_conversation_id row)) <$> rows).
Proof.
  apply (dashboard_lists_the_active_timers world_three), world_three_reachable.
Defined.

(** ** More on the analytics *)

Lemma kept_durations_sum (ss : list Timer) :
  foldr Z.add 0 (kept_durations ss) = foldr Z.add 0 (duration_or_zero <$> ss).
Proof.
  unfold kept_durations, duration_or_zero.
  induction ss as [|s ss IH]; [done|]. cbn [fmap list_fmap foldr].
  destruct (truthy_duration s) eqn:Ht.
  - rewrite filter_cons_True by done. cbn. unfold truthy_duration in Ht.
    destruct (final_duration s) as [d|]; [|done]. cbn. by rewrite IH.
  - rewrite filter_cons_False by (by rewrite Ht). rewrite IH.
    unfold truthy_duration in Ht.
    destruct (final_duration s) as [d|]; cbn; [|lia].
    apply negb_false_iff, Z.eqb_eq in Ht. lia.
Qed.

Lemma statistics_total_time (ss : list Timer) :
  total_time (statistics ss) = foldr Z.add 0 (duration_or_zero <$> ss).
Proof.
  rewrite <- kept_durations_sum. unfold statistics, kept_durations. cbn.
  rewrite fold_left_add, Z.add_0_l.
  apply foldr_add_perm, sort_ascending_perm.
Qed.

(** X13. The total time of the analytics is the sum of the
    [final_duration] of all the sessions collected for the operator,
    those of duration zero included (dropping them from the count does
    not change the sum); with no session collected it is 0. *)
Theorem analytics_total_is_sum_of_all_durations a w :
  reachable w →
  ∃ objs r,
    mapM load (collect_sessions a (conversationHistory w)) w = Some (objs, w) ∧
    analytics a w = Some (r, w) ∧
    total_time r = foldr Z.add 0 (duration_or_zero <$> objs).
Proof.
  intros Hr. pose proof (Inv_history_in_heap w (reachable_Inv w Hr)) as Hh.
  destruct (mapM_load_run (collect_sessions a (conversationHistory w)) w)
    as [objs Hobjs].
  { intros l Hl. apply collect_sessions_elem in Hl as (k & h & Hin & Hl).
    by eapply Hh. }
  exists objs. unfold analytics.
  destruct (collect_sessions a (conversationHistory w)) as [|l ls] eqn:E.
  - cbn in Hobjs. unfold ret in Hobjs. simplify_eq. eexists. done.
  - cbn [length Nat.eqb]. unfold bind. rewrite Hobjs. unfold ret.
    eexists. split_and!; [done|done|]. apply statistics_total_time.
Qed.

Lemma analytics_total_is_sum_of_all_durations_witness :
  ∃ objs r,
    mapM load
      (collect_sessions "test_admin_456" (conversationHistory world_durations_0_0_10000))
      world_durations_0_0_10000 = Some (objs, world_durations_0_0_10000) ∧
    analytics "test_admin_456" world_durations_0_0_10000
      = Some (r, world_durations_0_0_10000) ∧
    total_time r = foldr Z.add 0 (duration_or_zero <$> objs).
Proof.
  apply (analytics_total_is_sum_of_all_durations "test_admin_456"
           world_durations_0_0_10000).
  apply serve_reachable, reach_clock. do 5 apply serve_reachable. apply reach_init.
Defined.

Lemma kept_durations_perm (ss ss' : list Timer) :
  ss ≡ₚ ss' → kept_durations ss ≡ₚ kept_durations ss'.
Proof.
  intros HP. unfold kept_durations.
  assert (filter (λ s, truthy_duration s = true) ss
          ≡ₚ filter (λ s, truthy_duration s = true) ss') as HF by by rewrite HP.
  revert HF. generalize (filter (λ s, truthy_duration s = true) ss)
                        (filter (λ s, truthy_duration s = true) ss').
  induction 1 as [|x l l' _ IH|x y l|l1 l2 l3 _ IH1 _ IH2]; cbn.
  - done.
  - destruct (final_duration x); [by constructor|done].
  - destruct (final_duration x), (final_duration y); try done. apply perm_swap.
  - by etrans.
Qed.

(** X14. The figures of the analytics do not depend on the order of
    the sessions: two lists of sessions that are permutations of each
    other give the same count, total, average and median. *)
Theorem statistics_ignore_the_order_of_sessions (ss ss' : list Timer) :
  ss ≡ₚ ss' → statistics ss = statistics ss'.
Proof.
  intros HP. apply kept_durations_perm in HP. unfold kept_durations in HP.
  unfold statistics.
  assert (Hsort : sort_ascending (omap final_duration (filter (λ s, truthy_duration s = true) ss))
                  = sort_ascending (omap final_duration (filter (λ s, truthy_duration s = true) ss'))).
  { apply (Sorted_unique Z.le); [apply sort_ascending_sorted..|].
    by rewrite !sort_ascending_perm. }
  by rewrite Hsort.
Qed.

Lemma statistics_ignore_the_order_of_sessions_witness :
  statistics (map session_of [30000; 10000; 20000])
  = statistics (map session_of [10000; 20000; 30000]).
Proof.
  apply (statistics_ignore_the_order_of_sessions
           (map session_of [30000; 10000; 20000])
           (map session_of [10000; 20000; 30000])).
  cbn. etrans; [apply perm_swap|]. constructor. apply perm_swap.
Defined.

Lemma StronglySorted_lookup_le (l : list Z) i j x y :
  StronglySorted Z.le l → (i ≤ j)%nat → l !! i = Some x → l !! j = Some y →
  (x ≤ y)%Z.
Proof.
  intros HS. revert i j. induction HS as [|z l HS IH Hall]; intros i j Hij Hi Hj.
  - by rewrite lookup_nil in Hi.
  - destruct i as [|i], j as [|j]; cbn in Hi, Hj; simplify_eq; try lia.
    + rewrite Forall_forall in Hall. apply Hall. by eapply list_elem_of_lookup_2.
    + apply (IH i j); [lia|done..].
Qed.

Lemma filter_all_length {A : Type} (P : A → Prop) `{∀ x, Decision (P x)} (l : list A) :
  Forall P l → length (filter P l) = length l.
Proof.
  induction 1 as [|x l Hx _ IH]; [done|].
  rewrite filter_cons_True by done. cbn. by rewrite IH.
Qed.

(** X15. When at least one session has a non-zero duration, the median
    of the analytics is one of the non-zero durations, and it is the
    upper median: with [n] non-zero durations, at least
    [floor(n/2) + 1] of them are at most the median and at least
    [n - floor(n/2)] of them are at least the median. *)
Theorem analytics_median_is_upper_median (ss : list Timer) :
  kept_durations ss ≠ [] →
  ∃ m, median_time (statistics ss) = Some m ∧
       m ∈ kept_durations ss ∧
       let n := length (kept_durations ss) in
       (n / 2 + 1 ≤ length (filter (λ d, (d ≤ m)%Z) (kept_durations ss)))%nat ∧
       (n - n / 2 ≤ length (filter (λ d, (m ≤ d)%Z) (kept_durations ss)))%nat.
Proof.
  intros Hne. set (D := kept_durations ss) in *. set (sorted := sort_ascending D).
  assert (HP : sorted ≡ₚ D) by apply sort_ascending_perm.
  assert (Hlen : length sorted = length D) by by rewrite HP.
  assert (Hpos : (0 < length D)%nat) by (destruct D; [done|cbn; lia]).
  assert (Hidx : (length D / 2 < length sorted)%nat).
  { rewrite Hlen. apply Nat.div_lt; lia. }
  destruct (lookup_lt_is_Some_2 sorted _ Hidx) as [m Hm].
  assert (HSS : StronglySorted Z.le sorted).
  { apply (Sorted_StronglySorted Z.le), sort_ascending_sorted. }
  assert (Hf : ∀ (P : Z → Prop) (Hdec : ∀ x, Decision (P x)),
            length (filter P sorted) = length (filter P D)).
  { intros P Hdec. by rewrite HP. }
  exists m. split_and!.
  - unfold statistics.
    change (omap final_duration (filter (λ s, truthy_duration s = true) ss)) with D.
    fold sorted. cbn [median_time]. rewrite Hlen.
    destruct (Nat.ltb_spec 0%nat (length D)); [done|lia].
  - rewrite <- HP. by eapply list_elem_of_lookup_2.
  - cbn zeta. split.
    { rewrite <- (Hf (λ d, (d ≤ m)%Z) _).
    rewrite <- (take_drop (S (length D / 2)) sorted).
    rewrite filter_app, length_app.
    rewrite filter_all_length.
    + rewrite length_take. lia.
    + apply Forall_forall. intros x Hx.
      apply list_elem_of_lookup in Hx as [i Hi].
      apply lookup_take_Some in Hi as [Hi Hlt].
      eapply (StronglySorted_lookup_le sorted i (length D / 2)); [done|lia|done..]. }
    rewrite <- (Hf (λ d, (m ≤ d)%Z) _).
    rewrite <- (take_drop (length D / 2) sorted).
    rewrite filter_app, length_app.
    rewrite (filter_all_length _ (drop _ _)).
    + rewrite length_drop. lia.
    + apply Forall_forall. intros x Hx.
      apply list_elem_of_lookup in Hx as [i Hi].
      rewrite lookup_drop in Hi.
      eapply (StronglySorted_lookup_le sorted (length D / 2) (length D / 2 + i));
        [done|lia|done..].
Qed.

Lemma analytics_median_is_upper_median_witness :
  ∃ m, median_time (statistics two_sessions) = Some m ∧
       m ∈ kept_durations two_sessions ∧
       let n := length (kept_durations two_sessions) in
       (n / 2 + 1 ≤ length (filter (λ d, (d ≤ m)%Z) (kept_durations two_sessions)))%nat ∧
       (n - n / 2 ≤ length (filter (λ d, (m ≤ d)%Z) (kept_durations two_sessions)))%nat.
Proof.
  apply (analytics_median_is_upper_median two_sessions).
  discriminate.
Defined.

(** ** Keys of operators without underscore *)

Lemma key_cons ch a c : key (String ch a) c = String ch (key a c).
Proof. reflexivity. Qed.

Lemma key_nil c : key "" c = String (Ascii.ascii_of_nat 95) c.
Proof. reflexivity. Qed.

Lemma prefix_cons_cons ch1 s1 ch2 s2 :
  String.prefix (String ch1 s1) (String ch2 s2) = true →
  ch1 = ch2 ∧ String.prefix s1 s2 = true.
Proof. cbn. destruct (Ascii.ascii_dec ch1 ch2); [done|discriminate]. Qed.

(** X16. On operator identifiers without the character ['_'] the keys
    keep the pairs apart and the prefix test of the analytics is
    exact: equal keys come from equal operators and equal
    conversations, and a key that starts with the prefix of operator
    [a] is a key of operator [a]. *)
Theorem keys_separate_operators_without_underscore a a' c c' :
  has_underscore a = false → has_underscore a' = false →
  (key a c = key a' c' → a = a' ∧ c = c') ∧
  (String.prefix (a ++ "_")%string (key a' c') = true → a = a').
Proof.
  revert a'. induction a as [|x a IH]; intros [|y a'] Ha Ha'.
  - split; [|done]. rewrite !key_nil. intros H. by simplify_eq.
  - cbn in Ha'. apply orb_false_iff in Ha' as [Hy _]. apply Ascii.eqb_neq in Hy.
    split.
    + rewrite key_nil, key_cons. intros H. by simplify_eq.
    + change ("" ++ "_")%string with (String (Ascii.ascii_of_nat 95) "").
      rewrite key_cons. intros H. apply prefix_cons_cons in H as [H _]. by subst.
  - cbn in Ha. apply orb_false_iff in Ha as [Hx _]. apply Ascii.eqb_neq in Hx.
    split.
    + rewrite key_nil, key_cons. intros H. by simplify_eq.
    + change (String x a ++ "_")%string with (String x (a ++ "_")%string).
      rewrite key_nil. intros H. apply prefix_cons_cons in H as [H _]. by subst.
  - cbn in Ha, Ha'. apply orb_false_iff in Ha as [_ Ha], Ha' as [_ Ha'].
    destruct (IH a' Ha Ha') as [IH1 IH2]. split.
    + rewrite !key_cons. intros H. simplify_eq. by destruct IH1 as [-> ->].
    + change (String x a ++ "_")%string with (String x (a ++ "_")%string).
      rewrite key_cons. intros H. apply prefix_cons_cons in H as [-> H].
      f_equal. by apply IH2.
Qed.

Lemma keys_separate_operators_without_underscore_witness :
  (key "12" "b_c" = key "12" "b_c" → "12" = "12" ∧ "b_c" = "b_c") ∧
  (String.prefix ("12" ++ "_")%string (key "12" "b_c") = true → "12" = "12").
Proof.
  apply (keys_separate_operators_without_underscore "12" "12" "b_c" "b_c");
    reflexivity.
Defined.

(** ** [formatDuration] *)

Lemma las_app (s1 s2 : string) :
  list_ascii_of_string (s1 ++ s2)%string
  = list_ascii_of_string s1 ++ list_ascii_of_string s2.
Proof.
  induction s1 as [|ch s1 IH]; [done|].
  change (ch :: list_ascii_of_string (s1 ++ s2)%string
          = ch :: (list_ascii_of_string s1 ++ list_ascii_of_string s2)).
  by rewrite IH.
Qed.

Lemma las_length (s : string) : length (list_ascii_of_string s) = String.length s.
Proof. induction s as [|ch s IH]; [done|]. cbn. by rewrite IH. Qed.

Lemma las_inj (s1 s2 : string) :
  list_ascii_of_string s1 = list_ascii_of_string s2 → s1 = s2.
Proof.
  intros H. rewrite <- (string_of_list_ascii_of_string s1),
    <- (string_of_list_ascii_of_string s2). by rewrite H.
Qed.

Lemma string_length_app (s1 s2 : string) :
  String.length (s1 ++ s2)%string = (String.length s1 + String.length s2)%nat.
Proof. by rewrite <- !las_length, las_app, length_app. Qed.

Lemma digit_char_value (d : Z) :
  (0 ≤ d < 10)%Z → (Z.of_nat (Ascii.nat_of_ascii (digit_char d)) - 48 = d)%Z.
Proof.
  intros Hd. unfold digit_char. rewrite Ascii.nat_ascii_embedding by lia. lia.
Qed.

Lemma digits_value_snoc (s : string) ch :
  digits_value (s ++ String ch "")%string
  = (digits_value s * 10 + (Z.of_nat (Ascii.nat_of_ascii ch) - 48))%Z.
Proof. unfold digits_value. by rewrite las_app, fold_left_app. Qed.

Lemma decimal_digits_step fuel n :
  (10 ≤ n)%Z →
  decimal_digits (S fuel) n
  = (decimal_digits fuel (n / 10) ++ String (digit_char (n mod 10)) "")%string.
Proof. intros Hn. cbn [decimal_digits]. by destruct (Z.ltb_spec n 10); [lia|]. Qed.

Lemma decimal_digits_small fuel n :
  (n < 10)%Z → decimal_digits (S fuel) n = String (digit_char n) "".
Proof. intros Hn. cbn [decimal_digits]. by destruct (Z.ltb_spec n 10); [|lia]. Qed.

Lemma decimal_digits_value fuel : ∀ n,
  (0 ≤ n < 2 ^ Z.of_nat fuel)%Z → digits_value (decimal_digits fuel n) = n.
Proof.
  induction fuel as [|fuel IH]; intros n Hn.
  - cbn in Hn. assert (n = 0) as -> by lia. done.
  - rewrite Nat2Z.inj_succ, Z.pow_succ_r in Hn by lia.
    destruct (Z.ltb_spec n 10) as [Hlt|Hge].
    + rewrite decimal_digits_small by done. unfold digits_value. cbn.
      rewrite digit_char_value by lia. lia.
    + assert (Hdiv : (0 ≤ n / 10 < 2 ^ Z.of_nat fuel)%Z).
      { split; [apply Z.div_pos; lia|]. apply Z.div_lt_upper_bound; lia. }
      rewrite decimal_digits_step, digits_value_snoc, (IH _ Hdiv) by done.
      rewrite digit_char_value by (apply Z.mod_pos_bound; lia).
      pose proof (Z.div_mod n 10). lia.
Qed.

Lemma decimal_digits_nonempty fuel n :
  (1 ≤ String.length (decimal_digits (S fuel) n))%nat.
Proof.
  destruct (Z.ltb_spec n 10) as [Hlt|Hge].
  - rewrite decimal_digits_small by done. cbn. lia.
  - rewrite decimal_digits_step, string_length_app by done. cbn. lia.
Qed.

Lemma decimal_digits_length fuel n :
  (0 ≤ n < 2 ^ Z.of_nat (S fuel))%Z →
  ((n < 10)%Z → String.length (decimal_digits (S fuel) n) = 1%nat) ∧
  ((10 ≤ n < 100)%Z → String.length (decimal_digits (S fuel) n) = 2%nat) ∧
  ((100 ≤ n)%Z → (3 ≤ String.length (decimal_digits (S fuel) n))%nat).
Proof.
  intros Hn. rewrite Nat2Z.inj_succ, Z.pow_succ_r in Hn by lia. split_and!.
  - intros Hlt. by rewrite decimal_digits_small.
  - intros [Hge Hlt]. rewrite decimal_digits_step, string_length_app by done.
    destruct fuel as [|fuel]; [cbn in Hn; lia|].
    rewrite decimal_digits_small by (apply Z.div_lt_upper_bound; lia). done.
  - intros Hge. rewrite decimal_digits_step, string_length_app by lia.
    destruct fuel as [|fuel]; [cbn in Hn; lia|].
    rewrite decimal_digits_step, string_length_app
      by (apply Z.div_le_lower_bound; lia).
    destruct fuel as [|fuel].
    + cbn in Hn. lia.
    + pose proof (decimal_digits_nonempty fuel (n / 10 / 10)).
      cbn [String.length]. lia.
Qed.

Lemma toString_fuel n :
  (0 ≤ n)%Z → (0 ≤ n < 2 ^ Z.of_nat (S (Z.to_nat (Z.log2 n))))%Z.
Proof.
  intros Hn. split; [done|].
  rewrite Nat2Z.inj_succ, Z2Nat.id by apply Z.log2_nonneg.
  destruct (decide (n = 0)) as [->|Hne]; [done|].
  apply Z.log2_spec. lia.
Qed.

Lemma Z_toString_nonneg n :
  (0 ≤ n)%Z → Z_toString n = decimal_digits (S (Z.to_nat (Z.log2 n))) n.
Proof. intros Hn. unfold Z_toString. by destruct (Z.ltb_spec n 0); [lia|]. Qed.

Lemma Z_toString_value n : (0 ≤ n)%Z → digits_value (Z_toString n) = n.
Proof.
  intros Hn. rewrite Z_toString_nonneg by done.
  apply decimal_digits_value, toString_fuel. done.
Qed.

Lemma digits_value_zeros k s : digits_value (zeros k ++ s)%string = digits_value s.
Proof.
  unfold digits_value. rewrite las_app, fold_left_app. f_equal.
  induction k as [|k IH]; [done|]. cbn. exact IH.
Qed.

Lemma padStart0_value s : digits_value (padStart0 2 s) = digits_value s.
Proof. apply digits_value_zeros. Qed.

Lemma padStart0_length s :
  String.length (padStart0 2 s) = Nat.max 2 (String.length s).
Proof.
  unfold padStart0. rewrite string_length_app.
  assert (Hz : ∀ k, String.length (zeros k) = k).
  { induction k as [|k IH]; [done|]. cbn. by rewrite IH. }
  rewrite Hz. lia.
Qed.

(** The fields of the formatted string of a whole, non-negative number
    of milliseconds. *)
Lemma formatDuration_ms_fields ms :
  (0 ≤ ms)%Z →
  formatDuration_ms ms
  = (padStart0 2 (Z_toString (ms / 1000 / 3600)) ++ ":" ++
     padStart0 2 (Z_toString ((ms / 1000) mod 3600 / 60)) ++ ":" ++
     padStart0 2 (Z_toString ((ms / 1000) mod 60)))%string.
Proof.
  intros Hms. unfold formatDuration_ms, formatDuration.
  rewrite <- (Qround.Zdiv_Qdiv ms 1000). cbn zeta.
  assert (0 ≤ ms / 1000)%Z by (apply Z.div_pos; lia).
  by rewrite !Z.rem_mod_nonneg by lia.
Qed.

Lemma two_digit_field_length n :
  (0 ≤ n < 100)%Z → String.length (padStart0 2 (Z_toString n)) = 2%nat.
Proof.
  intros Hn. rewrite padStart0_length, Z_toString_nonneg by lia.
  destruct (decimal_digits_length _ n (toString_fuel n (proj1 Hn))) as (H1 & H2 & _).
  destruct (Z.ltb_spec n 10); [rewrite H1 by lia|rewrite H2 by lia]; done.
Qed.

(** X17. For a whole number of milliseconds [ms >= 0], the formatted
    duration has at least eight characters, and exactly eight (two
    digits for each field) as long as the duration is under 100 hours;
    from 100 hours on the hours take more digits: they are neither
    capped nor wrapped. *)
Theorem formatDuration_width ms :
  (0 ≤ ms)%Z →
  (8 ≤ String.length (formatDuration_ms ms))%nat ∧
  (String.length (formatDuration_ms ms) = 8%nat ↔ (ms < 360000000)%Z).
Proof.
  intros Hms. rewrite formatDuration_ms_fields by done.
  rewrite !string_length_app.
  rewrite (two_digit_field_length ((ms / 1000) mod 3600 / 60))
    by (Z.div_mod_to_equations; lia).
  rewrite (two_digit_field_length ((ms / 1000) mod 60))
    by (Z.div_mod_to_equations; lia).
  rewrite padStart0_length. cbn [String.length].
  assert (Hh : (0 ≤ ms / 1000 / 3600)%Z) by (Z.div_mod_to_equations; lia).
  rewrite Z_toString_nonneg by done.
  destruct (decimal_digits_length _ _ (toString_fuel _ Hh)) as (H1 & H2 & H3).
  split; [lia|]. split.
  - intros Hlen. destruct (Z.ltb_spec (ms / 1000 / 3600) 100) as [Hlt|Hge].
    + Z.div_mod_to_equations; lia.
    + specialize (H3 Hge). lia.
  - intros Hlt.
    assert (Hh100 : (ms / 1000 / 3600 < 100)%Z) by (Z.div_mod_to_equations; lia).
    destruct (Z.ltb_spec (ms / 1000 / 3600) 10);
      [rewrite H1 by lia|rewrite H2 by lia]; done.
Qed.

Lemma formatDuration_width_witness :
  (8 ≤ String.length (formatDuration_ms 20000))%nat ∧
  (String.length (formatDuration_ms 20000) = 8%nat ↔ (20000 < 360000000)%Z).
Proof. apply (formatDuration_width 20000). lia. Defined.

Lemma field_value n : (0 ≤ n)%Z → digits_value (padStart0 2 (Z_toString n)) = n.
Proof. intros Hn. by rewrite padStart0_value, Z_toString_value. Qed.

(** X18. On whole numbers of milliseconds from 0 up to [2^53], the
    range where the source's division by 1000 and its floor are exact
    to the second, the formatted duration determines the number of
    whole seconds and nothing more: two durations are shown alike
    exactly when they have the same number of whole seconds. *)
Theorem formatDuration_shows_exactly_the_whole_seconds a b :
  (0 ≤ a < 2 ^ 53)%Z → (0 ≤ b < 2 ^ 53)%Z →
  formatDuration_ms a = formatDuration_ms b ↔ (a / 1000 = b / 1000)%Z.
Proof.
  intros [Ha _] [Hb _]. rewrite !formatDuration_ms_fields by done. split.
  - intros Heq. apply (f_equal list_ascii_of_string) in Heq.
    rewrite !las_app in Heq.
    apply app_inj_2 in Heq as [Hh Hrest].
    2:{ rewrite !length_app, !las_length.
        rewrite !two_digit_field_length by (Z.div_mod_to_equations; lia). done. }
    apply app_inj_2 in Hrest as [_ Hrest].
    2:{ rewrite !length_app, !las_length.
        rewrite !two_digit_field_length by (Z.div_mod_to_equations; lia). done. }
    apply app_inj_2 in Hrest as [Hm Hrest].
    2:{ rewrite !length_app, !las_length.
        rewrite !two_digit_field_length by (Z.div_mod_to_equations; lia). done. }
    apply app_inj_2 in Hrest as [_ Hs].
    2:{ rewrite !las_length.
        rewrite !two_digit_field_length by (Z.div_mod_to_equations; lia). done. }
    apply las_inj, (f_equal digits_value) in Hh, Hm, Hs.
    rewrite !field_value in Hh, Hm, Hs by (Z.div_mod_to_equations; lia).
    Z.div_mod_to_equations; lia.
  - by intros ->.
Qed.

Lemma formatDuration_shows_exactly_the_whole_seconds_witness :
  formatDuration_ms 20000 = formatDuration_ms 20999 ↔ (20000 / 1000 = 20999 / 1000)%Z.
Proof. apply (formatDuration_shows_exactly_the_whole_seconds 20000 20999); lia. Defined.

Lemma Qfloor_div_1000 q :
  Qround.Qfloor (q / inject_Z 1000) = (Qround.Qfloor q / 1000)%Z.
Proof.
  destruct q as [n d]. unfold Qround.Qfloor, Qdiv, Qmult, Qinv. cbn.
  rewrite Z.mul_1_r, Pos2Z.inj_mul, Z.div_div by lia. done.
Qed.

(** X19. A fractional number of milliseconds (the average of the
    analytics) is formatted as its integer part: the fraction never
    changes the string. *)
Theorem formatDuration_ignores_the_fraction q :
  formatDuration (JsNum q) = formatDuration_ms (Qround.Qfloor q).
Proof.
  unfold formatDuration_ms, formatDuration.
  by rewrite Qfloor_div_1000, <- Qround.Zdiv_Qdiv.
Qed.

(** X20. The function has no guard for negative input: every negative
    whole number of milliseconds is formatted with a leading minus
    sign, since the hours are the floor of a negative quotient. *)
Theorem formatDuration_negative_has_minus_sign ms :
  (ms < 0)%Z → ∃ rest, formatDuration_ms ms = ("-" ++ rest)%string.
Proof.
  intros Hms. unfold formatDuration_ms, formatDuration.
  rewrite <- (Qround.Zdiv_Qdiv ms 1000). cbn zeta.
  set (h := (ms / 1000 / 3600)%Z).
  assert (Hh : (h < 0)%Z) by (subst h; Z.div_mod_to_equations; lia).
  unfold Z_toString at 1. destruct (Z.ltb_spec h 0) as [_|?]; [|lia].
  set (d := decimal_digits _ (- h)).
  assert (Hd : (1 ≤ String.length d)%nat) by apply decimal_digits_nonempty.
  unfold padStart0 at 1.
  replace (2 - String.length ("-" ++ d)%string)%nat with 0%nat.
  2:{ rewrite string_length_app. cbn [String.length]. lia. }
  eexists. reflexivity.
Qed.

Lemma formatDuration_negative_has_minus_sign_witness :
  ∃ rest, formatDuration_ms (-1) = ("-" ++ rest)%string.
Proof. apply (formatDuration_negative_has_minus_sign (-1)). lia. Defined.
